(** * The application registry of [django/apps/registry.py]

    A shallow embedding of the class [Apps]: the registry of installed
    applications (the ActiveSet [app_configs]), of every model ever imported
    (the RecordStore [all_models]), of the stack of saved application sets
    ([stored_app_configs]) and of the memoization table of [get_models].

    Python objects are mutable and methods raise exceptions after having
    changed the object, so every method is a function from the registry to a
    result (a value or an exception) together with the registry it leaves
    behind.

    [_pending_lookups] is left out: no method of the file reads or writes
    it. So are the path helpers among the deprecated methods
    ([_get_app_path], [get_app_path], [get_app_paths]), which go to the file
    system, and the calls to [warnings.warn]. *)

From stdpp Require Import gmap strings list fin_maps.
From Stdlib Require Import Ascii String.

Local Open Scope string_scope.

(** ** Python strings: [str.lower], [str.split] and [str.rpartition] *)

Module PyStr.

(** [c.lower()] on one character: the letters [A]..[Z] move to [a]..[z]. *)
Definition lower_ascii (c : ascii) : ascii :=
  let n := nat_of_ascii c in
  if ((65 <=? n)%nat && (n <=? 90)%nat)%bool then ascii_of_nat (n + 32) else c.

(** [s.lower()] *)
Fixpoint lower (s : string) : string :=
  match s with
  | EmptyString => EmptyString
  | String c s' => String (lower_ascii c) (lower s')
  end.

(** [s.split(sep)] for a one-character separator: never the empty list. *)
Fixpoint split (sep : ascii) (s : string) : list string :=
  match s with
  | EmptyString => [EmptyString]
  | String c s' =>
      if Ascii.eqb c sep then EmptyString :: split sep s'
      else match split sep s' with
           | [] => [String c EmptyString]
           | h :: t => String c h :: t
           end
  end.

(** [s.rpartition(sep)[2]]: what follows the last separator, the whole
    string when there is none. *)
Definition rpartition_tail (sep : ascii) (s : string) : string :=
  List.last (split sep s) EmptyString.

(** [l[-2]] on a list: the element before the last, if there is one. *)
Definition index_minus_2 {A} (l : list A) : option A := rev l !! 1%nat.

(** Two strings are equal up to letter case. *)
Definition same_ignoring_case (s t : string) : Prop := lower s = lower t.

End PyStr.

(** ** [collections.OrderedDict] with string keys

    An association list in insertion order. Assigning to a key that is
    present replaces the value where it stands; a new key goes to the end. *)

Module OrderedDict.

Definition t (V : Type) : Type := list (string * V).

Definition empty {V} : t V := [].

(** [d.get(k)] *)
Fixpoint get {V} (k : string) (d : t V) : option V :=
  match d with
  | [] => None
  | (k', v) :: d' => if decide (k' = k) then Some v else get k d'
  end.

(** [k in d] *)
Definition contains {V} (k : string) (d : t V) : bool :=
  match get k d with Some _ => true | None => false end.

(** [d[k] = v] *)
Fixpoint set {V} (k : string) (v : V) (d : t V) : t V :=
  match d with
  | [] => [(k, v)]
  | (k', v') :: d' =>
      if decide (k' = k) then (k', v) :: d' else (k', v') :: set k v d'
  end.

(** [d.values()], [d.items()], [d.keys()] *)
Definition values {V} (d : t V) : list V := snd <$> d.
Definition items {V} (d : t V) : list (string * V) := d.
Definition keys {V} (d : t V) : list string := fst <$> d.

(** [OrderedDict(pairs)] *)
Definition of_items {V} (l : list (string * V)) : t V :=
  foldl (fun d kv => set kv.1 kv.2 d) empty l.

(** [bool(d)] *)
Definition truthy {V} (d : t V) : bool :=
  match d with [] => false | _ :: _ => true end.

End OrderedDict.

(** ** Models and application configurations (the collaborators) *)

(** Modelled from the spec: the class of a model is not part of
    [registry.py]. A record "has a case-normalizable name" and "belongs to
    exactly one component at creation time"; the filters of [getRecords]
    name three marks: auto-created, deferred and swapped. *)
Record Model : Type := {
  meta_app_label : string;
  meta_object_name : string;
  meta_auto_created : bool;
  deferred : bool;
  meta_swapped : bool
}.

(** Modelled from the spec: [model._meta.model_name], the key of the
    RecordStore, is the "record-name-lowercased". *)
Definition model_name (model : Model) : string :=
  PyStr.lower (meta_object_name model).

(** Modelled from the spec: what a [setup] hook may ask the registry. The
    hook runs when every component is loaded, "so components may reference
    each other's records during setup": it may call the methods that look
    applications and models up. *)
Inductive read : Type :=
| ReadAppConfigs
| ReadAppConfig (app_label : string)
| ReadModels (app_mod : option string)
             (include_auto_created include_deferred include_swapped : bool)
| ReadModel (app_label model_name : string)
| ReadHasApp (app_name : string)
| ReadRegisteredModel (app_label model_name : string).

Module AppConfig.

(** Modelled from the spec: the descriptor of [django/apps/base.py] is not
    part of [registry.py]. It has a [label], a qualified [name], a [load]
    operation that yields the records of the component or faults, and a
    [setup] hook: the hook makes its calls to the registry
    ([setup_reads]), and then returns or faults ([setup]). *)
Record t : Type := {
  label : string;
  name : string;
  load : string + list Model;
  setup_reads : list read;
  setup : option string
}.

(** Modelled from the spec: [app_config.get_models(...)] walks the
    component's records ([models], the sub-map of the RecordStore that
    [import_models] was given) in their order and leaves out the
    auto-created, deferred and swapped ones unless asked for. *)
Definition get_models (models : OrderedDict.t Model)
    (include_auto_created include_deferred include_swapped : bool)
    : list Model :=
  List.filter
    (fun model =>
       (negb (deferred model) || include_deferred)
       && (negb (meta_auto_created model) || include_auto_created)
       && (negb (meta_swapped model) || include_swapped))
    (OrderedDict.values models).

(** Modelled from the spec: [app_config.get_model(model_name)] is the
    "case-insensitive lookup by name within one component": it looks
    [model_name.lower()] up in the component's records. *)
Definition get_model (models : OrderedDict.t Model) (model_name : string)
    : option Model :=
  OrderedDict.get (PyStr.lower model_name) models.

End AppConfig.

(** An entry of [INSTALLED_APPS]: an [AppConfig] instance or a dotted path. *)
Inductive entry : Type :=
| Instance (app_config : AppConfig.t)
| Path (dotted : string).

(** ** Exceptions *)

Inductive exn : Type :=
| RuntimeError_no_installed_apps
    (* "You must supply an installed_apps argument." *)
| RuntimeError_not_ready
    (* "App registry isn't populated yet. Have you called django.setup()?" *)
| RuntimeError_not_reentrant
    (* "populate() isn't reentrant" *)
| RuntimeError_conflicting (model_name app_label : string)
                           (existing incoming : Model)
    (* "Conflicting '%s' models in application '%s': %s and %s." *)
| LookupError_no_installed_app (app_label : string)
    (* "No installed app with label '%s'." *)
| LookupError_no_model (app_label model_name : string)
    (* raised by [AppConfig.get_model] *)
| LookupError_not_registered (app_label model_name : string)
    (* "Model '%s.%s' not registered." *)
| ValueError_not_subset (extra : gset string)
    (* "Available apps isn't a subset of installed apps, extra apps: %s" *)
| IndexError
    (* [list.pop()] on an empty list, [l[-2]] on a short list *)
| TypeError
    (* iterating over [None] *)
| Fault (message : string).
    (* raised by a collaborator: [AppConfig.create], [import_models], [setup] *)

Inductive result (A : Type) : Type :=
| Ok (a : A)
| Raise (e : exn).
Arguments Ok {A} a.
Arguments Raise {A} e.

(** ** The registry *)

(** The key of the [lru_cache] of [get_models]: its arguments. [app_mod] is
    a module, known here by its [__name__]. *)
Abbreviation cache_key := (option string * bool * bool * bool)%type.

Record Apps : Type := {
  all_models : gmap string (OrderedDict.t Model);
  app_configs : OrderedDict.t AppConfig.t;
  stored_app_configs : list (OrderedDict.t AppConfig.t);
  ready : bool;
  get_models_cache : gmap cache_key (list Model)
}.

Definition with_all_models (v : gmap string (OrderedDict.t Model)) (self : Apps) : Apps :=
  {| all_models := v; app_configs := app_configs self;
     stored_app_configs := stored_app_configs self; ready := ready self;
     get_models_cache := get_models_cache self |}.

Definition with_app_configs (v : OrderedDict.t AppConfig.t) (self : Apps) : Apps :=
  {| all_models := all_models self; app_configs := v;
     stored_app_configs := stored_app_configs self; ready := ready self;
     get_models_cache := get_models_cache self |}.

Definition with_stored_app_configs (v : list (OrderedDict.t AppConfig.t)) (self : Apps) : Apps :=
  {| all_models := all_models self; app_configs := app_configs self;
     stored_app_configs := v; ready := ready self;
     get_models_cache := get_models_cache self |}.

Definition with_ready (v : bool) (self : Apps) : Apps :=
  {| all_models := all_models self; app_configs := app_configs self;
     stored_app_configs := stored_app_configs self; ready := v;
     get_models_cache := get_models_cache self |}.

Definition with_get_models_cache (v : gmap cache_key (list Model)) (self : Apps) : Apps :=
  {| all_models := all_models self; app_configs := app_configs self;
     stored_app_configs := stored_app_configs self; ready := ready self;
     get_models_cache := v |}.

(** [Apps.__init__] before the call to [populate]. *)
Definition init : Apps :=
  {| all_models := ∅; app_configs := OrderedDict.empty;
     stored_app_configs := []; ready := false; get_models_cache := ∅ |}.

(** ** Methods as state transformers that may raise *)

Definition M (A : Type) : Type := Apps -> result A * Apps.

Definition ret {A} (a : A) : M A := fun self => (Ok a, self).

Definition raise {A} (e : exn) : M A := fun self => (Raise e, self).

Definition bind {A B} (m : M A) (k : A -> M B) : M B :=
  fun self =>
    match m self with
    | (Ok a, self') => k a self'
    | (Raise e, self') => (Raise e, self')
    end.

Definition gets {A} (f : Apps -> A) : M A := fun self => (Ok (f self), self).

Definition modify (f : Apps -> Apps) : M unit := fun self => (Ok tt, f self).

(** [try: m except LookupError: h] *)
Definition is_LookupError (e : exn) : bool :=
  match e with
  | LookupError_no_installed_app _ | LookupError_no_model _ _
  | LookupError_not_registered _ _ => true
  | _ => false
  end.

Definition except_LookupError {A} (m : M A) (h : M A) : M A :=
  fun self =>
    match m self with
    | (Raise e, self') => if is_LookupError e then h self' else (Raise e, self')
    | r => r
    end.

Notation "'let*' x ':=' m 'in' k" := (bind m (fun x => k))
  (at level 10, x name, m at level 100, k at level 200).
Notation "m ';;;' k" := (bind m (fun _ => k))
  (at level 100, k at level 200, right associativity).

(** [for x in l: body(x)] *)
Fixpoint for_each {A} (body : A -> M unit) (l : list A) : M unit :=
  match l with
  | [] => ret tt
  | x :: l' => body x ;;; for_each body l'
  end.

(** ** The methods of [Apps] *)

Section Registry.

(** [AppConfig.create(entry)], the factory of [django/apps/base.py] that
    imports the application named by a dotted path: it returns its
    configuration or raises. *)
Variable create : string -> string + AppConfig.t.

(** [self.get_models.cache_clear()] *)
Definition clear_cache : M unit :=
  modify (with_get_models_cache ∅).

(** [self.all_models[app_label]] on a [defaultdict(OrderedDict)]: a label
    that is missing is first given an empty [OrderedDict]. *)
Definition all_models_getitem (app_label : string) : M (OrderedDict.t Model) :=
  fun self =>
    match all_models self !! app_label with
    | Some app_models => (Ok app_models, self)
    | None =>
        (Ok OrderedDict.empty,
         with_all_models (<[app_label := OrderedDict.empty]> (all_models self)) self)
    end.

(** [app_models[model_name] = model] where [app_models] is the object
    [self.all_models[app_label]]. *)
Definition app_models_setitem (app_label model_name : string) (model : Model) : M unit :=
  modify (fun self =>
    with_all_models
      (<[app_label :=
           OrderedDict.set model_name model
             (default OrderedDict.empty (all_models self !! app_label))]>
         (all_models self)) self).

Definition register_model (app_label : string) (model : Model) : M unit :=
  let model_name := model_name model in
  let* app_models := all_models_getitem app_label in
  match OrderedDict.get model_name app_models with
  | Some existing =>
      raise (RuntimeError_conflicting model_name app_label existing model)
  | None =>
      app_models_setitem app_label model_name model ;;;
      clear_cache
  end.

(** Modelled from the spec: [app_config.import_models(all_models)] of
    [django/apps/base.py] imports the models module of the application.
    [load()] faults or yields a sequence of records, and every record
    "self-registers into the registry via registerRecord as an inherent
    side effect of its construction", under the component it belongs to. *)
Definition import_models (app_config : AppConfig.t) : M unit :=
  match AppConfig.load app_config with
  | inl message => raise (Fault message)
  | inr models =>
      for_each (fun model => register_model (meta_app_label model) model) models
  end.

Definition check_ready : M unit :=
  let* is_ready := gets ready in
  if negb is_ready then raise RuntimeError_not_ready else ret tt.

Definition get_app_configs : M (list AppConfig.t) :=
  check_ready ;;;
  gets (fun self => OrderedDict.values (app_configs self)).

Definition get_app_config (app_label : string) : M AppConfig.t :=
  check_ready ;;;
  let* configs := gets app_configs in
  match OrderedDict.get app_label configs with
  | Some app_config => ret app_config
  | None => raise (LookupError_no_installed_app app_label)
  end.

(** [app_config.models]: the object [self.all_models[app_config.label]]
    that [populate] handed to [import_models]. It is shared with the
    registry, so it is read from the registry. *)
Definition models_of (app_config : AppConfig.t) : M (OrderedDict.t Model) :=
  gets (fun self =>
    default OrderedDict.empty (all_models self !! AppConfig.label app_config)).

(** The body of [get_models], under the [lru_cache] decorator. *)
Definition get_models_uncached (app_mod : option string)
    (include_auto_created include_deferred include_swapped : bool)
    : M (list Model) :=
  check_ready ;;;
  match app_mod with
  | Some module_name =>
      (* warnings.warn(...) *)
      match PyStr.index_minus_2 (PyStr.split "." module_name) with
      | None => raise IndexError
      | Some app_label =>
          except_LookupError
            (let* app_config := get_app_config app_label in
             let* models := models_of app_config in
             ret (AppConfig.get_models models
                    include_auto_created include_deferred include_swapped))
            (ret [])
      end
  | None =>
      gets (fun self =>
        List.flat_map
          (fun app_config =>
             AppConfig.get_models
               (default OrderedDict.empty
                  (all_models self !! AppConfig.label app_config))
               include_auto_created include_deferred include_swapped)
          (OrderedDict.values (app_configs self)))
  end.

(** [@lru_cache.lru_cache(maxsize=None)]: a call whose arguments are in
    the table returns the stored result; otherwise the body runs and, when
    it returns, its result is stored. A call that raises stores nothing. *)
Definition get_models (app_mod : option string)
    (include_auto_created include_deferred include_swapped : bool)
    : M (list Model) :=
  fun self =>
    let key : cache_key :=
      (app_mod, include_auto_created, include_deferred, include_swapped) in
    match get_models_cache self !! key with
    | Some models => (Ok models, self)
    | None =>
        match get_models_uncached app_mod include_auto_created
                include_deferred include_swapped self with
        | (Ok models, self') =>
            (Ok models,
             with_get_models_cache (<[key := models]> (get_models_cache self')) self')
        | (Raise e, self') => (Raise e, self')
        end
    end.

Definition get_model (app_label model_name : string) : M Model :=
  check_ready ;;;
  let* app_config := get_app_config app_label in
  let* models := models_of app_config in
  match AppConfig.get_model models (PyStr.lower model_name) with
  | Some model => ret model
  | None =>
      raise (LookupError_no_model (AppConfig.label app_config)
               (PyStr.lower model_name))
  end.

Definition has_app (app_name : string) : M bool :=
  let* configs := gets app_configs in
  match OrderedDict.get (PyStr.rpartition_tail "." app_name) configs with
  | Some app_config => ret (bool_decide (AppConfig.name app_config = app_name))
  | None => ret false
  end.

Definition get_registered_model (app_label model_name : string) : M Model :=
  let* app_models := all_models_getitem app_label in
  match OrderedDict.get (PyStr.lower model_name) app_models with
  | None => raise (LookupError_not_registered app_label model_name)
  | Some model => ret model
  end.

(** A call that a hook makes: the hook deals with the result, value or
    exception, and the registry is left as the call leaves it. *)
Definition quietly {A} (m : M A) : M unit :=
  fun self => (Ok tt, (m self).2).

Definition perform (r : read) : M unit :=
  match r with
  | ReadAppConfigs => quietly get_app_configs
  | ReadAppConfig app_label => quietly (get_app_config app_label)
  | ReadModels app_mod a d s => quietly (get_models app_mod a d s)
  | ReadModel app_label model_name => quietly (get_model app_label model_name)
  | ReadHasApp app_name => quietly (has_app app_name)
  | ReadRegisteredModel app_label model_name =>
      quietly (get_registered_model app_label model_name)
  end.

(** Modelled from the spec: [app_config.setup()], the post-load hook. It
    makes its calls to the registry, then returns or faults. *)
Definition setup (app_config : AppConfig.t) : M unit :=
  for_each perform (AppConfig.setup_reads app_config) ;;;
  match AppConfig.setup app_config with
  | Some message => raise (Fault message)
  | None => ret tt
  end.

(** The first loop of [populate]: an entry is an [AppConfig] or is handed
    to [AppConfig.create]; the configuration is stored under its label. *)
Definition load_app_config (e : entry) : M unit :=
  let* app_config :=
    match e with
    | Instance app_config => ret app_config
    | Path dotted =>
        match create dotted with
        | inl message => raise (Fault message)
        | inr app_config => ret app_config
        end
    end in
  modify (fun self =>
    with_app_configs
      (OrderedDict.set (AppConfig.label app_config) app_config (app_configs self))
      self).

(** The second loop of [populate]. *)
Definition load_models (app_config : AppConfig.t) : M unit :=
  let* all_models := all_models_getitem (AppConfig.label app_config) in
  import_models app_config.

Definition populate (installed_apps : option (list entry)) : M unit :=
  let* is_ready := gets ready in
  if is_ready then ret tt else
  (* with import_lock(): *)
  let* is_ready := gets ready in
  if is_ready then ret tt else
  let* configs := gets app_configs in
  if OrderedDict.truthy configs then raise RuntimeError_not_reentrant else
  match installed_apps with
  | None => raise TypeError
  | Some installed_apps =>
      for_each load_app_config installed_apps ;;;
      let* configs := gets (fun self => OrderedDict.values (app_configs self)) in
      for_each load_models configs ;;;
      clear_cache ;;;
      modify (with_ready true) ;;;
      let* configs := get_app_configs in
      for_each setup configs
  end.

(** [Apps(installed_apps)]. [master] tells whether the module already has
    its master registry [apps]: only that one is created with [None], and it
    is not populated at creation. *)
Definition __init__ (master : bool) (installed_apps : option (list entry))
    : result unit * Apps :=
  match installed_apps with
  | None =>
      if master then (Raise RuntimeError_no_installed_apps, init)
      else (Ok tt, init)
  | Some _ => populate installed_apps init
  end.

(** [self.stored_app_configs.append(self.app_configs)]: the head of the
    list is the top of the stack, the last element of the Python list. *)
Definition push_app_configs : M unit :=
  modify (fun self =>
    with_stored_app_configs (app_configs self :: stored_app_configs self) self).

(** [self.app_configs = self.stored_app_configs.pop()] *)
Definition pop_app_configs : M unit :=
  fun self =>
    match stored_app_configs self with
    | [] => (Raise IndexError, self)
    | top :: rest =>
        (Ok tt, with_app_configs top (with_stored_app_configs rest self))
    end.

Definition set_available_apps (available : list string) : M unit :=
  let available : gset string := list_to_set available in
  let* configs := get_app_configs in
  let installed : gset string := list_to_set (AppConfig.name <$> configs) in
  if negb (bool_decide (available ⊆ installed)) then
    raise (ValueError_not_subset (available ∖ installed))
  else
    push_app_configs ;;;
    modify (fun self =>
      with_app_configs
        (OrderedDict.of_items
           (List.filter
              (fun item => bool_decide (AppConfig.name item.2 ∈ available))
              (OrderedDict.items (app_configs self))))
        self) ;;;
    clear_cache.

Definition unset_available_apps : M unit :=
  pop_app_configs ;;;
  clear_cache.

Definition set_installed_apps (installed : list entry) : M unit :=
  check_ready ;;;
  push_app_configs ;;;
  modify (with_app_configs OrderedDict.empty) ;;;
  modify (with_ready false) ;;;
  clear_cache ;;;
  populate (Some installed).

Definition unset_installed_apps : M unit :=
  pop_app_configs ;;;
  modify (with_ready true) ;;;
  clear_cache.

End Registry.

(** ** A small installation, to run the methods on *)

Module Demo.

Definition Widget : Model :=
  {| meta_app_label := "B"; meta_object_name := "Widget";
     meta_auto_created := false; deferred := false; meta_swapped := false |}.

Definition Gadget : Model :=
  {| meta_app_label := "A"; meta_object_name := "Gadget";
     meta_auto_created := false; deferred := false; meta_swapped := false |}.

Definition A : AppConfig.t :=
  {| AppConfig.label := "A"; AppConfig.name := "pkg.A";
     AppConfig.load := inr [Gadget]; AppConfig.setup_reads := []; AppConfig.setup := None |}.

Definition B : AppConfig.t :=
  {| AppConfig.label := "B"; AppConfig.name := "pkg.B";
     AppConfig.load := inr [Widget]; AppConfig.setup_reads := []; AppConfig.setup := None |}.

(** An application whose models module fails to import. *)
Definition Broken : AppConfig.t :=
  {| AppConfig.label := "broken"; AppConfig.name := "pkg.broken";
     AppConfig.load := inl "ImportError"; AppConfig.setup_reads := []; AppConfig.setup := None |}.

(** Another application that calls itself [A]. *)
Definition A2 : AppConfig.t :=
  {| AppConfig.label := "A"; AppConfig.name := "other.A";
     AppConfig.load := inr []; AppConfig.setup_reads := []; AppConfig.setup := None |}.

(** An application whose label is not the end of its name. *)
Definition Shop : AppConfig.t :=
  {| AppConfig.label := "shop"; AppConfig.name := "pkg.store";
     AppConfig.load := inr []; AppConfig.setup_reads := []; AppConfig.setup := None |}.

(** [AppConfig.create]: the two applications that can be imported. *)
Definition create (dotted : string) : string + AppConfig.t :=
  if decide (dotted = "pkg.A") then inr A
  else if decide (dotted = "pkg.B") then inr B
  else inl dotted.

End Demo.

(** A call of one public method, its result thrown away: what a client of
    the registry can do to it. *)
Inductive call : Type :=
| Populate (installed_apps : option (list entry))
| GetAppConfigs
| GetAppConfig (app_label : string)
| GetModels (app_mod : option string)
            (include_auto_created include_deferred include_swapped : bool)
| GetModel (app_label model_name : string)
| RegisterModel (app_label : string) (model : Model)
| HasApp (app_name : string)
| GetRegisteredModel (app_label model_name : string)
| SetAvailableApps (available : list string)
| UnsetAvailableApps
| SetInstalledApps (installed : list entry)
| UnsetInstalledApps.

Definition discard {A} (m : M A) : M unit := m ;;; ret tt.

Definition invoke (create : string -> string + AppConfig.t) (c : call) : M unit :=
  match c with
  | Populate installed_apps => populate create installed_apps
  | GetAppConfigs => discard get_app_configs
  | GetAppConfig app_label => discard (get_app_config app_label)
  | GetModels app_mod a d s => discard (get_models app_mod a d s)
  | GetModel app_label model_name => discard (get_model app_label model_name)
  | RegisterModel app_label model => register_model app_label model
  | HasApp app_name => discard (has_app app_name)
  | GetRegisteredModel app_label model_name =>
      discard (get_registered_model app_label model_name)
  | SetAvailableApps available => set_available_apps available
  | UnsetAvailableApps => unset_available_apps
  | SetInstalledApps installed => set_installed_apps create installed
  | UnsetInstalledApps => unset_installed_apps
  end.

(** The registry after a sequence of calls, whatever each one returned: an
    exception is caught by the caller, who carries on. *)
Definition after (create : string -> string + AppConfig.t)
    (calls : list call) (self : Apps) : Apps :=
  foldl (fun self c => (invoke create c self).2) self calls.

(** The calls that alter the registry of applications or of models. *)
Definition alters (c : call) : bool :=
  match c with
  | Populate _ | RegisterModel _ _ | SetAvailableApps _ | UnsetAvailableApps
  | SetInstalledApps _ | UnsetInstalledApps => true
  | _ => false
  end.

(** [set_available_apps] and [unset_available_apps], counted. *)
Definition pushes (calls : list call) : nat :=
  List.length (List.filter (fun c => match c with SetAvailableApps _ => true | _ => false end) calls).

Definition pops (calls : list call) : nat :=
  List.length (List.filter (fun c => match c with UnsetAvailableApps => true | _ => false end) calls).

Definition subset_call (c : call) : Prop :=
  match c with SetAvailableApps _ | UnsetAvailableApps => True | _ => False end.

(** ** Views of the registry used in the statements *)

(** The record stored under a label and a (lowercased) name. *)
Definition registered (self : Apps) (app_label model_name : string) : option Model :=
  all_models self !! app_label ≫= OrderedDict.get model_name.

(** Every record of the RecordStore is stored under the label of the
    component it belongs to. *)
Definition store_owned (self : Apps) : Prop :=
  map_Forall
    (fun app_label app_models =>
       Forall (fun model => meta_app_label model = app_label)
              (OrderedDict.values app_models))
    (all_models self).

#[global] Instance store_owned_dec self : Decision (store_owned self).
Proof. unfold store_owned. apply _. Defined.

(** What an entry of [INSTALLED_APPS] resolves to in the first loop of
    [populate]. *)
Definition resolve (create : string -> string + AppConfig.t) (e : entry)
    : string + AppConfig.t :=
  match e with
  | Instance app_config => inr app_config
  | Path dotted => create dotted
  end.

(** The last configuration of a list that has a given label. *)
Definition last_labelled (app_label : string) (configs : list AppConfig.t)
    : option AppConfig.t :=
  List.find (fun c => bool_decide (AppConfig.label c = app_label)) (rev configs).

(** The bottom of the stack of application sets, the current set included. *)
Definition bottom (self : Apps) : OrderedDict.t AppConfig.t :=
  List.last (stored_app_configs self) (app_configs self).

(** What the import of models leaves alone: the applications, the stack
    and the flag. *)
Definition same_apps (self self' : Apps) : Prop :=
  app_configs self' = app_configs self
  /\ stored_app_configs self' = stored_app_configs self
  /\ ready self' = ready self.

(** The RecordStore only grows. *)
Definition store_grows (self self' : Apps) : Prop :=
  forall app_label name model,
    registered self app_label name = Some model ->
    registered self' app_label name = Some model.

(** What the import of models does to the registry: it keeps the
    applications, and the RecordStore keeps what it had. *)
Definition imports (self self' : Apps) : Prop :=
  same_apps self self' /\ store_grows self self'
  /\ (store_owned self -> store_owned self')
  /\ (get_models_cache self = ∅ -> get_models_cache self' = ∅).

(** The first loop only touches [app_configs]. *)
Definition same_store (self self' : Apps) : Prop :=
  all_models self' = all_models self
  /\ stored_app_configs self' = stored_app_configs self
  /\ ready self' = ready self
  /\ get_models_cache self' = get_models_cache self.

(** The exceptions that come out of the collaborators of [populate]: a fault
    of [create], [import_models] or [setup], or two models in conflict. *)
Definition from_loading (e : exn) : Prop :=
  match e with
  | Fault _ | RuntimeError_conflicting _ _ _ _ => True
  | _ => False
  end.

(** What a method that may import models does: the RecordStore keeps what
    it had and the stack is not touched. *)
Definition keeps_models (self self' : Apps) : Prop :=
  store_grows self self'
  /\ (store_owned self -> store_owned self')
  /\ stored_app_configs self' = stored_app_configs self.

(** The registry of the demonstration once populated with [A] and [B]. *)
Definition demo_ready : Apps :=
  (populate Demo.create (Some [Path "pkg.A"; Path "pkg.B"]) init).2.

(** The registry after [populate] has failed on the models of [Broken]. *)
Definition demo_failed : Apps :=
  (populate Demo.create (Some [Path "pkg.A"; Instance Demo.Broken]) init).2.

(** The registry of the demonstration populated with [A] alone. *)
Definition demo_A : Apps :=
  (populate Demo.create (Some [Path "pkg.A"]) init).2.

(** ** The deprecated methods of [Apps] *)

(** [sep.join(l)] *)
Fixpoint join (sep : string) (l : list string) : string :=
  match l with
  | [] => EmptyString
  | x :: l' =>
      match l' with
      | [] => x
      | _ :: _ => String.append x (String.append sep (join sep l'))
      end
  end.

(** ['.'.join(app.__name__.split('.')[:-1])], the module [app] known by its
    [__name__]. *)
Definition _get_app_package (app : string) : string :=
  join "." (removelast (PyStr.split "." app)).

(** The exceptions of the deprecated methods: the ones of the methods they
    call, and [ImproperlyConfigured], raised with the arguments of the
    [LookupError] it stands for or for an application without models. *)
Inductive exn_compat : Type :=
| Propagated (e : exn)
| ImproperlyConfigured (lookup_error : exn)
    (* raised with the arguments of the LookupError *)
| ImproperlyConfigured_no_models_module (app_label : string).
    (* "App '%s' doesn't have a models module." *)

Inductive outcome (A : Type) : Type :=
| Returned (a : A)
| Raised (e : exn_compat).
Arguments Returned {A} a.
Arguments Raised {A} e.

Section Deprecated.

Variable create : string -> string + AppConfig.t.

(** Modelled from the spec: [app_config.models_module], the "recordsModule
    reference (nullable)" of a descriptor, known by its [__name__]; it is
    what [import_models] has found, and is read after the import only. *)
Variable models_module : AppConfig.t -> option string.

Definition load_app (app_name : string) : M (option string) :=
  (* warnings.warn(...) *)
  match create app_name with
  | inl message => raise (Fault message)
  | inr app_config =>
      let* all_models := all_models_getitem (AppConfig.label app_config) in
      import_models app_config ;;;
      modify (fun self =>
        with_app_configs
          (OrderedDict.set (AppConfig.label app_config) app_config
             (app_configs self)) self) ;;;
      clear_cache ;;;
      ret (models_module app_config)
  end.

Definition app_cache_ready : M bool := gets ready.

Definition get_app (app_label : string) : Apps -> outcome string * Apps :=
  fun self =>
    match get_app_config app_label self with
    | (Raise e, self') =>
        if is_LookupError e then (Raised (ImproperlyConfigured e), self')
        else (Raised (Propagated e), self')
    | (Ok app_config, self') =>
        match models_module app_config with
        | None => (Raised (ImproperlyConfigured_no_models_module app_label), self')
        | Some module => (Returned module, self')
        end
    end.

Definition get_apps : M (list string) :=
  let* configs := get_app_configs in
  ret (omap models_module configs).

Definition get_app_package (app_label : string) : Apps -> outcome string * Apps :=
  fun self =>
    match get_app app_label self with
    | (Returned app, self') => (Returned (_get_app_package app), self')
    | (Raised e, self') => (Raised e, self')
    end.

Definition register_models (app_label : string) (models : list Model) : M unit :=
  for_each (register_model app_label) models.

End Deprecated.

(** ** Further views of the registry *)

(** An ordered dictionary of applications as [populate] builds it: no key
    twice, and every application under its own label. *)
Definition dict_wf (d : OrderedDict.t AppConfig.t) : Prop :=
  NoDup (OrderedDict.keys d)
  /\ Forall (fun item => item.1 = AppConfig.label item.2) d.

Definition registry_wf (self : Apps) : Prop :=
  dict_wf (app_configs self) /\ Forall dict_wf (stored_app_configs self).

(** What the body of [get_models] computes for the arguments in a key. *)
Definition computed (self : Apps) (key : cache_key) : result (list Model) :=
  (get_models_uncached key.1.1.1 key.1.1.2 key.1.2 key.2 self).1.

(** The table of [get_models] holds nothing while the registry is not
    ready, and holds only what the body of [get_models] computes now. *)
Definition cache_sound (self : Apps) : Prop :=
  (ready self = false -> get_models_cache self = ∅)
  /\ forall key models,
       get_models_cache self !! key = Some models ->
       computed self key = Ok models.

(** What the body of [get_models] reads of the registry. *)
Definition same_view (self self' : Apps) : Prop :=
  ready self' = ready self
  /\ app_configs self' = app_configs self
  /\ forall app_label,
       default OrderedDict.empty (all_models self' !! app_label)
       = default OrderedDict.empty (all_models self !! app_label).

(** What a hook does to the registry with the calls it makes: it changes
    nothing that the body of [get_models] reads, and not the stack. *)
Definition reads_only (self self' : Apps) : Prop :=
  same_view self self'
  /\ stored_app_configs self' = stored_app_configs self.

(** The labels of a list in the order of their first occurrence. *)
Fixpoint first_occurrences (labels : list string) : list string :=
  match labels with
  | [] => []
  | x :: labels' => x :: filter (fun y => y <> x) (first_occurrences labels')
  end.

(** The calls that start with [check_ready]. *)
Definition needs_ready (c : call) : bool :=
  match c with
  | GetAppConfigs | GetAppConfig _ | GetModels _ _ _ _ | GetModel _ _
  | SetAvailableApps _ | SetInstalledApps _ => true
  | _ => false
  end.

(** The names of the installed applications. *)
Definition installed_names (self : Apps) : list string :=
  AppConfig.name <$> OrderedDict.values (app_configs self).

(** Whether a dotted name has a dot at all. *)
Fixpoint has_dot (s : string) : bool :=
  match s with
  | EmptyString => false
  | String c s' => Ascii.eqb c "." || has_dot s'
  end.

(** The set of applications that the first loop of [populate] builds from
    configurations with distinct labels. *)
Definition labelled (configs : list AppConfig.t) : OrderedDict.t AppConfig.t :=
  (fun c => (AppConfig.label c, c)) <$> configs.

(** More of the demonstration: an application whose hook faults, and the
    models modules of the applications ([Shop] has none). *)
Module Demo2.

Definition Hooked : AppConfig.t :=
  {| AppConfig.label := "hooked"; AppConfig.name := "pkg.hooked";
     AppConfig.load := inr []; AppConfig.setup_reads := [];
     AppConfig.setup := Some "SetupError" |}.

(** An application whose hook asks for the models. *)
Definition Reader : AppConfig.t :=
  {| AppConfig.label := "reader"; AppConfig.name := "pkg.reader";
     AppConfig.load := inr [];
     AppConfig.setup_reads :=
       [ReadModels None false false false; ReadRegisteredModel "ghost" "x"];
     AppConfig.setup := None |}.

Definition models_module (app_config : AppConfig.t) : option string :=
  if decide (AppConfig.label app_config = "shop") then None
  else Some (String.append (AppConfig.name app_config) ".models").

End Demo2.

(** * Properties *)

(** ** Strings and ordered dictionaries *)

Lemma lower_ascii_idempotent c :
  PyStr.lower_ascii (PyStr.lower_ascii c) = PyStr.lower_ascii c.
Proof. destruct c as [[] [] [] [] [] [] [] []]; reflexivity. Qed.

Lemma lower_idempotent s : PyStr.lower (PyStr.lower s) = PyStr.lower s.
Proof.
  induction s as [|c s IH]; simpl; [reflexivity|].
  by rewrite lower_ascii_idempotent, IH.
Qed.

Section OrderedDictFacts.
Context {V : Type}.
Implicit Types (d : OrderedDict.t V) (k : string) (v : V).

Lemma od_get_set_eq k v d : OrderedDict.get k (OrderedDict.set k v d) = Some v.
Proof.
  induction d as [|[k' v'] d IH]; simpl.
  - by rewrite decide_True.
  - destruct (decide (k' = k)) as [->|Hne]; simpl.
    + by rewrite decide_True.
    + by rewrite decide_False.
Qed.

Lemma od_get_set_ne k k' v d :
  k ≠ k' -> OrderedDict.get k' (OrderedDict.set k v d) = OrderedDict.get k' d.
Proof.
  intros Hne. induction d as [|[k0 v0] d IH]; simpl.
  - by rewrite decide_False.
  - destruct (decide (k0 = k)) as [->|Hne0]; simpl.
    + by rewrite !decide_False.
    + destruct (decide (k0 = k')); [done|apply IH].
Qed.

Lemma od_get_values k v d : OrderedDict.get k d = Some v -> v ∈ OrderedDict.values d.
Proof.
  induction d as [|[k' v'] d IH]; simpl; [done|].
  destruct (decide (k' = k)).
  - intros [= ->]. apply list_elem_of_here.
  - intros H. apply list_elem_of_further, IH, H.
Qed.

Lemma od_values_set k v d x :
  x ∈ OrderedDict.values (OrderedDict.set k v d) ->
  x = v \/ x ∈ OrderedDict.values d.
Proof.
  induction d as [|[k' v'] d IH]; simpl.
  - intros H. apply list_elem_of_singleton in H. by left.
  - destruct (decide (k' = k)); simpl; intros H;
      apply elem_of_cons in H as [->|H].
    + by left.
    + right. by apply list_elem_of_further.
    + right. apply list_elem_of_here.
    + destruct (IH H) as [->|H']; [by left|right; by apply list_elem_of_further].
Qed.

Lemma od_values_in_get v d :
  v ∈ OrderedDict.values d -> exists k, (k, v) ∈ d.
Proof.
  unfold OrderedDict.values. intros H.
  apply list_elem_of_fmap in H as [[k v'] [-> H]]. by exists k.
Qed.

Lemma od_set_truthy k v d : OrderedDict.truthy (OrderedDict.set k v d) = true.
Proof. destruct d as [|[k' v'] d]; simpl; [done|]. by destruct (decide (k' = k)). Qed.

End OrderedDictFacts.

(** ** Ordered dictionaries without a repeated key *)

Section OrderedDictKeys.
Context {V : Type}.
Implicit Types (d : list (string * V)) (k : string) (v : V).

Lemma od_get_Some_in k v d : OrderedDict.get k d = Some v -> (k, v) ∈ d.
Proof.
  induction d as [|[k' v'] d IH]; simpl; [done|].
  destruct (decide (k' = k)) as [->|Hne].
  - intros [= ->]. apply list_elem_of_here.
  - intros H. apply list_elem_of_further, IH, H.
Qed.

Lemma od_get_None_keys k d : OrderedDict.get k d = None <-> k ∉ OrderedDict.keys d.
Proof.
  unfold OrderedDict.keys. induction d as [|[k' v'] d IH]; simpl.
  - split; [intros _; apply not_elem_of_nil|done].
  - rewrite not_elem_of_cons. destruct (decide (k' = k)) as [->|Hne].
    + split; [done|]. by intros [? _].
    + rewrite IH. split; [by split|by intros [_ ?]].
Qed.

Lemma od_in_get k v d :
  NoDup (OrderedDict.keys d) -> (k, v) ∈ d -> OrderedDict.get k d = Some v.
Proof.
  unfold OrderedDict.keys. induction d as [|[k' v'] d IH]; simpl.
  - intros _ H. by apply elem_of_nil in H.
  - intros Hnd H. apply NoDup_cons in Hnd as [Hfresh Hnd].
    apply elem_of_cons in H as [[= -> ->]|H].
    + by rewrite decide_True.
    + destruct (decide (k' = k)) as [->|Hne]; [|by apply IH].
      exfalso. apply Hfresh. apply list_elem_of_fmap. by exists (k, v).
Qed.

Lemma od_set_fresh k v d :
  k ∉ OrderedDict.keys d -> OrderedDict.set k v d = (d ++ [(k, v)])%list.
Proof.
  unfold OrderedDict.keys. induction d as [|[k' v'] d IH]; simpl; [done|].
  rewrite not_elem_of_cons. intros [Hne Hfresh].
  rewrite decide_False by done. by rewrite IH.
Qed.

Lemma od_keys_set k v d :
  OrderedDict.keys (OrderedDict.set k v d) =
  if decide (k ∈ OrderedDict.keys d) then OrderedDict.keys d
  else (OrderedDict.keys d ++ [k])%list.
Proof.
  unfold OrderedDict.keys. induction d as [|[k' v'] d IH].
  - case_decide as H; [by apply elem_of_nil in H|done].
  - change (fst <$> (k', v') :: d) with (k' :: (fst <$> d)).
    simpl OrderedDict.set. destruct (decide (k' = k)) as [->|Hne].
    + clear IH. case_decide as H; [done|]. exfalso. apply H, list_elem_of_here.
    + change (fst <$> (k', v') :: OrderedDict.set k v d)
        with (k' :: (fst <$> OrderedDict.set k v d)).
      rewrite IH. destruct (decide (k ∈ fst <$> d)) as [Hin|Hout].
      * rewrite decide_True by (by apply list_elem_of_further). done.
      * rewrite decide_False; [done|].
        intros H. apply elem_of_cons in H as [->|?]; done.
Qed.

Lemma od_set_NoDup k v d :
  NoDup (OrderedDict.keys d) -> NoDup (OrderedDict.keys (OrderedDict.set k v d)).
Proof.
  intros Hnd. rewrite od_keys_set. case_decide as Hin; [done|].
  apply NoDup_app. split; [done|]. split; [|apply NoDup_singleton].
  intros x Hx Hk. apply list_elem_of_singleton in Hk as ->. done.
Qed.

Lemma od_set_in k v d item :
  item ∈ OrderedDict.set k v d -> item = (k, v) \/ item ∈ d.
Proof.
  induction d as [|[k' v'] d IH]; simpl.
  - intros H. apply list_elem_of_singleton in H. by left.
  - destruct (decide (k' = k)) as [->|Hne]; intros H;
      apply elem_of_cons in H as [->|H].
    + by left.
    + right. by apply list_elem_of_further.
    + right. apply list_elem_of_here.
    + destruct (IH H) as [->|H']; [by left|right; by apply list_elem_of_further].
Qed.

(** [OrderedDict(pairs)] is the list of pairs when no key comes twice. *)
Lemma od_of_items_NoDup (l : list (string * V)) :
  NoDup (OrderedDict.keys l) -> OrderedDict.of_items l = l.
Proof.
  unfold OrderedDict.of_items, OrderedDict.empty.
  assert (Hgen : forall acc : list (string * V),
             NoDup (OrderedDict.keys (acc ++ l)%list) ->
             foldl (fun d kv => OrderedDict.set kv.1 kv.2 d) acc l = (acc ++ l)%list).
  { induction l as [|[k v] l IH]; intros acc Hnd; simpl.
    - by rewrite app_nil_r.
    - rewrite od_set_fresh.
      + rewrite IH; rewrite <- app_assoc; done.
      + unfold OrderedDict.keys in *. rewrite fmap_app in Hnd.
        apply NoDup_app in Hnd as (_ & Hdisj & _).
        intros Hin. apply (Hdisj k Hin). simpl. apply list_elem_of_here. }
  intros Hnd. by apply (Hgen []).
Qed.

Lemma od_keys_filter_NoDup (f : string * V -> bool) d :
  NoDup (OrderedDict.keys d) -> NoDup (OrderedDict.keys (List.filter f d)).
Proof.
  unfold OrderedDict.keys. induction d as [|item d IH]; simpl; [done|].
  intros Hnd. apply NoDup_cons in Hnd as [Hfresh Hnd].
  destruct (f item); simpl; [|by apply IH].
  apply NoDup_cons. split; [|by apply IH].
  intros Hin. apply Hfresh.
  apply list_elem_of_fmap in Hin as (x & -> & Hx).
  apply list_elem_of_fmap. exists x. split; [done|].
  apply list_elem_of_In in Hx. apply filter_In in Hx as [Hx _].
  by apply list_elem_of_In.
Qed.

Lemma od_values_filter (f : string * V -> bool) (g : V -> bool) d :
  (forall item, f item = g item.2) ->
  OrderedDict.values (List.filter f d) = List.filter g (OrderedDict.values d).
Proof.
  intros Hfg. unfold OrderedDict.values.
  induction d as [|item d IH]; simpl; [done|].
  rewrite Hfg. destruct (g item.2); [rewrite !fmap_cons; f_equal|]; apply IH.
Qed.

End OrderedDictKeys.

(** ** The order of first occurrences *)

Lemma filter_not_in_nil (l : list string) : filter (fun y => y ∉ []) l = l.
Proof.
  induction l as [|x l IH]; [done|].
  rewrite filter_cons_True by apply not_elem_of_nil. by rewrite IH.
Qed.

(** Assigning to key [k] and then to the keys of [F] in turn gives the keys
    that assigning to [k :: F] gives. *)
Lemma first_occurrences_step (K F : list string) (k : string) :
  ((if decide (k ∈ K) then K else K ++ [k])
   ++ filter (fun y => y ∉ (if decide (k ∈ K) then K else K ++ [k])) F)%list
  = (K ++ filter (fun y => y ∉ K) (k :: filter (fun y => y <> k) F))%list.
Proof.
  destruct (decide (k ∈ K)) as [Hin|Hout].
  - f_equal. rewrite filter_cons_False by (intros H; by apply H).
    rewrite list_filter_filter. apply list_filter_iff. intros y. split.
    + intros Hy. split; [done|]. by intros ->.
    + by intros [Hy _].
  - rewrite <- app_assoc. f_equal. rewrite filter_cons_True by done.
    simpl. f_equal. rewrite list_filter_filter. apply list_filter_iff.
    intros y. rewrite not_elem_of_app, list_elem_of_singleton. done.
Qed.

(** ** Loops and frames *)

(** Unfolds the plumbing of the monad. *)
Ltac run_monad :=
  unfold discard, bind, ret, raise, gets, modify in *; simpl in *.

Lemma for_each_invariant {A} (P : Apps -> Prop) (body : A -> M unit) l :
  (forall x self, P self -> P (body x self).2) ->
  forall self, P self -> P (for_each body l self).2.
Proof.
  intros Hbody. induction l as [|x l IH]; intros self HP; simpl; [done|].
  unfold bind. specialize (Hbody x self HP).
  destruct (body x self) as [[[]|e] self1]; simpl in *; [by apply IH|done].
Qed.

Lemma for_each_raise_nonempty {A} (body : A -> M unit) l self e self' :
  for_each body l self = (Raise e, self') -> l <> [].
Proof. by destruct l. Qed.

Lemma for_each_app {A} (body : A -> M unit) l1 l2 self :
  for_each body (l1 ++ l2) self =
  match for_each body l1 self with
  | (Ok _, self1) => for_each body l2 self1
  | (Raise e, self1) => (Raise e, self1)
  end.
Proof.
  revert self. induction l1 as [|x l1 IH]; intros self; simpl; [done|].
  unfold bind. destruct (body x self) as [[[]|e] self1]; [apply IH|done].
Qed.

Lemma same_apps_refl self : same_apps self self.
Proof. by repeat split. Qed.

Lemma same_apps_trans s1 s2 s3 : same_apps s1 s2 -> same_apps s2 s3 -> same_apps s1 s3.
Proof. unfold same_apps. intros (-> & -> & ->) (-> & -> & ->). done. Qed.

Section RegistryFacts.

Variable create : string -> string + AppConfig.t.

(** *** [register_model] *)

Lemma register_model_new app_label model self :
  registered self app_label (model_name model) = None ->
  register_model app_label model self =
  (Ok tt,
   with_get_models_cache ∅
     (with_all_models
        (<[app_label :=
             OrderedDict.set (model_name model) model
               (default OrderedDict.empty (all_models self !! app_label))]>
           (all_models self)) self)).
Proof.
  unfold registered, register_model, all_models_getitem, app_models_setitem,
    clear_cache. run_monad.
  destruct (all_models self !! app_label) as [app_models|] eqn:Hsub; simpl.
  - intros ->. unfold with_all_models, with_get_models_cache; simpl.
    by rewrite Hsub.
  - intros _. unfold with_all_models, with_get_models_cache; simpl.
    by rewrite lookup_insert_eq, insert_insert_eq.
Qed.

Lemma register_model_existing app_label model existing self :
  registered self app_label (model_name model) = Some existing ->
  register_model app_label model self =
  (Raise (RuntimeError_conflicting (model_name model) app_label existing model),
   self).
Proof.
  unfold registered, register_model, all_models_getitem. run_monad.
  destruct (all_models self !! app_label) as [app_models|] eqn:Hsub; simpl;
    [|done].
  by intros ->.
Qed.

Lemma register_model_cases app_label model self :
  (registered self app_label (model_name model) = None
   /\ register_model app_label model self =
      (Ok tt,
       with_get_models_cache ∅
         (with_all_models
            (<[app_label :=
                 OrderedDict.set (model_name model) model
                   (default OrderedDict.empty (all_models self !! app_label))]>
               (all_models self)) self)))
  \/ (exists existing,
        registered self app_label (model_name model) = Some existing
        /\ register_model app_label model self =
           (Raise (RuntimeError_conflicting (model_name model) app_label
                     existing model), self)).
Proof.
  destruct (registered self app_label (model_name model)) as [existing|] eqn:H.
  - right. exists existing. split; [done|by apply register_model_existing].
  - left. split; [done|by apply register_model_new].
Qed.

Lemma registered_after_insert self app_label name model app_label' name' :
  registered
    (with_all_models
       (<[app_label :=
            OrderedDict.set name model
              (default OrderedDict.empty (all_models self !! app_label))]>
          (all_models self)) self) app_label' name' =
  if decide (app_label = app_label' /\ name = name') then Some model
  else registered self app_label' name'.
Proof.
  unfold registered; simpl.
  destruct (decide (app_label = app_label')) as [<-|Hne].
  - rewrite lookup_insert_eq; simpl.
    destruct (decide (name = name')) as [<-|Hne'].
    + rewrite decide_True by done. apply od_get_set_eq.
    + rewrite decide_False by (by intros [? ?]).
      rewrite od_get_set_ne by done.
      by destruct (all_models self !! app_label).
  - rewrite lookup_insert_ne by done. rewrite decide_False by (by intros [? ?]). done.
Qed.

Lemma register_model_same_apps app_label model self :
  same_apps self (register_model app_label model self).2.
Proof.
  destruct (register_model_cases app_label model self)
    as [[_ ->]|(existing & _ & ->)]; by repeat split.
Qed.

(** The RecordStore is append-only under [register_model]. *)
Lemma register_model_keeps app_label model self app_label' name' model' :
  registered self app_label' name' = Some model' ->
  registered (register_model app_label model self).2 app_label' name' = Some model'.
Proof.
  intros Hreg.
  destruct (register_model_cases app_label model self)
    as [[Hnew ->]|(existing & _ & ->)]; simpl; [|done].
  change (registered (with_get_models_cache ∅ ?s)) with (registered s).
  rewrite registered_after_insert. case_decide as Hk; [|done].
  destruct Hk as [<- <-]. congruence.
Qed.

Lemma register_model_store_owned model self :
  store_owned self ->
  store_owned (register_model (meta_app_label model) model self).2.
Proof.
  intros Hown.
  destruct (register_model_cases (meta_app_label model) model self)
    as [[_ ->]|(existing & _ & ->)]; simpl; [|done].
  unfold store_owned; simpl. apply map_Forall_insert_2; [|done].
  apply Forall_forall. intros x Hx.
  apply od_values_set in Hx as [->|Hx]; [done|].
  destruct (all_models self !! meta_app_label model) as [app_models|] eqn:Hsub;
    simpl in Hx; [|by apply elem_of_nil in Hx].
  specialize (Hown _ _ Hsub). simpl in Hown.
  rewrite Forall_forall in Hown. by apply Hown.
Qed.

(** *** The steps of [populate] *)

Lemma store_grows_refl self : store_grows self self.
Proof. by intros ???. Qed.

Lemma store_grows_same s1 s2 : all_models s2 = all_models s1 -> store_grows s1 s2.
Proof. intros H ???. unfold registered. by rewrite H. Qed.

Lemma store_grows_trans s1 s2 s3 :
  store_grows s1 s2 -> store_grows s2 s3 -> store_grows s1 s3.
Proof. intros H12 H23 ????. by apply H23, H12. Qed.

Lemma imports_refl self : imports self self.
Proof.
  split; [apply same_apps_refl|split; [apply store_grows_refl|done]].
Qed.

Lemma imports_trans s1 s2 s3 : imports s1 s2 -> imports s2 s3 -> imports s1 s3.
Proof.
  intros (Ha & Hg & Ho & Hc) (Ha' & Hg' & Ho' & Hc').
  split; [by eapply same_apps_trans|].
  split; [by eapply store_grows_trans|auto].
Qed.

Lemma for_each_imports {A} (body : A -> M unit) l self :
  (forall x s, imports s (body x s).2) ->
  imports self (for_each body l self).2.
Proof.
  intros Hbody.
  apply (for_each_invariant (imports self)); [|apply imports_refl].
  intros x s Hs. eapply imports_trans; [exact Hs|apply Hbody].
Qed.

Lemma all_models_getitem_registered app_label self app_label' name' :
  registered (all_models_getitem app_label self).2 app_label' name' =
  registered self app_label' name'.
Proof.
  unfold all_models_getitem, registered.
  destruct (all_models self !! app_label) as [app_models|] eqn:Hsub; simpl;
    [done|].
  destruct (decide (app_label = app_label')) as [<-|Hne].
  - by rewrite lookup_insert_eq, Hsub.
  - by rewrite lookup_insert_ne.
Qed.

Lemma all_models_getitem_imports app_label self :
  imports self (all_models_getitem app_label self).2.
Proof.
  split; [|split; [|split]].
  - unfold all_models_getitem.
    by destruct (all_models self !! app_label); repeat split.
  - intros ??? H. by rewrite all_models_getitem_registered.
  - unfold all_models_getitem, store_owned.
    destruct (all_models self !! app_label) eqn:Hsub; simpl; [done|].
    intros Hown. apply map_Forall_insert_2; [constructor|done].
  - unfold all_models_getitem.
    by destruct (all_models self !! app_label).
Qed.

Lemma all_models_getitem_ok app_label self :
  exists app_models,
    all_models_getitem app_label self =
    (Ok app_models, (all_models_getitem app_label self).2).
Proof.
  unfold all_models_getitem.
  destruct (all_models self !! app_label); simpl; eauto.
Qed.

Lemma register_own_model_imports model self :
  imports self (register_model (meta_app_label model) model self).2.
Proof.
  split; [apply register_model_same_apps|split; [|split]].
  - intros ????. by apply register_model_keeps.
  - apply register_model_store_owned.
  - destruct (register_model_cases (meta_app_label model) model self)
      as [[_ ->]|(existing & _ & ->)]; done.
Qed.

Lemma import_models_imports app_config self :
  imports self (import_models app_config self).2.
Proof.
  unfold import_models.
  destruct (AppConfig.load app_config) as [message|models];
    [apply imports_refl|].
  apply for_each_imports. intros model s. apply register_own_model_imports.
Qed.

Lemma load_models_imports app_config self :
  imports self (load_models app_config self).2.
Proof.
  unfold load_models, bind.
  destruct (all_models_getitem_ok (AppConfig.label app_config) self)
    as [app_models ->].
  eapply imports_trans; [apply all_models_getitem_imports|].
  apply import_models_imports.
Qed.

Lemma load_app_config_same_store e self :
  same_store self (load_app_config create e self).2.
Proof.
  unfold load_app_config. run_monad.
  destruct e as [app_config|dotted]; [by repeat split|].
  destruct (create dotted); by repeat split.
Qed.

Lemma for_each_load_app_config_same_store entries self :
  same_store self (for_each (load_app_config create) entries self).2.
Proof.
  apply (for_each_invariant (same_store self)); [|by repeat split].
  intros e s (H1 & H2 & H3 & H4).
  destruct (load_app_config_same_store e s) as (H1' & H2' & H3' & H4').
  repeat split; congruence.
Qed.

(** *** [get_models] and its cache *)

Lemma get_models_uncached_unchanged app_mod a d s self :
  (get_models_uncached app_mod a d s self).2 = self.
Proof.
  unfold get_models_uncached, except_LookupError, get_app_config,
    models_of, check_ready. run_monad.
  destruct (ready self); simpl; [|done].
  destruct app_mod as [module_name|]; [|done].
  destruct (PyStr.index_minus_2 _) as [app_label|]; [|done].
  destruct (ready self); simpl; [|done].
  by destruct (OrderedDict.get app_label (app_configs self)).
Qed.

Lemma get_models_cached app_mod a d s models self :
  get_models_cache self !! (app_mod, a, d, s) = Some models ->
  get_models app_mod a d s self = (Ok models, self).
Proof. unfold get_models; cbv zeta. by intros ->. Qed.

(** A call of [get_models] that returns has its result in the table. *)
Lemma get_models_stores app_mod a d s models self self' :
  get_models app_mod a d s self = (Ok models, self') ->
  get_models_cache self' !! (app_mod, a, d, s) = Some models.
Proof.
  unfold get_models; cbv zeta.
  destruct (get_models_cache self !! (app_mod, a, d, s)) as [cached|] eqn:Hhit.
  - by intros [= <- <-].
  - destruct (get_models_uncached app_mod a d s self) as [[ms|e] self1];
      [|done].
    intros [= <- <-]. simpl. apply lookup_insert_eq.
Qed.

(** [get_models] changes the table only, and only by adding to it. *)
Lemma get_models_effect app_mod a d s self :
  let self' := (get_models app_mod a d s self).2 in
  all_models self' = all_models self
  /\ app_configs self' = app_configs self
  /\ stored_app_configs self' = stored_app_configs self
  /\ ready self' = ready self
  /\ forall key models,
       get_models_cache self !! key = Some models ->
       get_models_cache self' !! key = Some models.
Proof.
  unfold get_models; cbv zeta.
  destruct (get_models_cache self !! (app_mod, a, d, s)) as [cached|] eqn:Hhit;
    [by repeat split|].
  pose proof (get_models_uncached_unchanged app_mod a d s self) as Hsame.
  destruct (get_models_uncached app_mod a d s self) as [[ms|e] self1];
    simpl in *; subst self1; [|by repeat split].
  repeat split. intros key models Hkey.
  rewrite lookup_insert_ne; [done|]. intros <-. congruence.
Qed.

Lemma get_model_unchanged app_label model_name self :
  (get_model app_label model_name self).2 = self.
Proof.
  unfold get_model, get_app_config, check_ready, models_of. run_monad.
  destruct (ready self); simpl; [|done].
  destruct (ready self); simpl; [|done].
  destruct (OrderedDict.get app_label (app_configs self)); simpl; [|done].
  by destruct (AppConfig.get_model _ _).
Qed.

Lemma get_app_configs_unchanged self : (get_app_configs self).2 = self.
Proof. unfold get_app_configs, check_ready. run_monad. by destruct (ready self). Qed.

Lemma get_app_config_unchanged app_label self :
  (get_app_config app_label self).2 = self.
Proof.
  unfold get_app_config, check_ready. run_monad.
  destruct (ready self); simpl; [|done].
  by destruct (OrderedDict.get app_label (app_configs self)).
Qed.

Lemma discard_state {A} (m : M A) self : (discard m self).2 = (m self).2.
Proof. unfold discard, bind, ret. by destruct (m self) as [[a|e] s]. Qed.

Lemma get_registered_model_effect app_label model_name self :
  let self' := (get_registered_model app_label model_name self).2 in
  self' = (all_models_getitem app_label self).2.
Proof.
  unfold get_registered_model, bind.
  destruct (all_models_getitem_ok app_label self) as [app_models ->].
  by destruct (OrderedDict.get _ app_models).
Qed.

(** *** Hooks *)

Lemma same_view_refl self : same_view self self.
Proof. by repeat split. Qed.

Lemma same_view_trans s1 s2 s3 :
  same_view s1 s2 -> same_view s2 s3 -> same_view s1 s3.
Proof.
  intros (Hr & Hc & Hm) (Hr' & Hc' & Hm'). split; [congruence|].
  split; [congruence|]. intros app_label. by rewrite Hm', Hm.
Qed.

Lemma reads_only_refl self : reads_only self self.
Proof. split; [apply same_view_refl|done]. Qed.

Lemma reads_only_trans s1 s2 s3 :
  reads_only s1 s2 -> reads_only s2 s3 -> reads_only s1 s3.
Proof.
  intros [Hv Hs] [Hv' Hs']. split; [by eapply same_view_trans|congruence].
Qed.

Lemma registered_default self app_label name :
  registered self app_label name =
  OrderedDict.get name (default OrderedDict.empty (all_models self !! app_label)).
Proof. unfold registered. by destruct (all_models self !! app_label). Qed.

Lemma same_view_registered self self' app_label name :
  same_view self self' ->
  registered self' app_label name = registered self app_label name.
Proof. intros (_ & _ & Hm). by rewrite !registered_default, Hm. Qed.

Lemma same_view_store_owned self self' :
  same_view self self' -> store_owned self -> store_owned self'.
Proof.
  intros (_ & _ & Hm) Hown app_label app_models Hsub. simpl.
  specialize (Hm app_label). rewrite Hsub in Hm. simpl in Hm. subst app_models.
  destruct (all_models self !! app_label) as [app_models|] eqn:Hsub'; simpl.
  - apply (Hown _ _ Hsub').
  - constructor.
Qed.

Lemma all_models_getitem_reads_only app_label self :
  reads_only self (all_models_getitem app_label self).2
  /\ get_models_cache (all_models_getitem app_label self).2
     = get_models_cache self.
Proof.
  unfold all_models_getitem.
  destruct (all_models self !! app_label) as [app_models|] eqn:Hsub; simpl;
    [split; [apply reads_only_refl|done]|].
  repeat split. intros app_label'. simpl.
  destruct (decide (app_label = app_label')) as [<-|Hne].
  - by rewrite lookup_insert_eq, Hsub.
  - by rewrite lookup_insert_ne.
Qed.

Lemma has_app_unchanged app_name self : (has_app app_name self).2 = self.
Proof.
  unfold has_app. run_monad.
  by destruct (OrderedDict.get _ (app_configs self)).
Qed.

(** A call of a hook returns to the hook and alters nothing. *)
Lemma perform_reads_only r self :
  perform r self = (Ok tt, (perform r self).2)
  /\ reads_only self (perform r self).2.
Proof.
  split; [by destruct r|].
  destruct r; simpl.
  - rewrite get_app_configs_unchanged. apply reads_only_refl.
  - rewrite get_app_config_unchanged. apply reads_only_refl.
  - destruct (get_models_effect app_mod include_auto_created include_deferred
                include_swapped self) as (Hstore & Hcfg & Hstack & Hready & _).
    repeat split; try done. intros app_label. by rewrite Hstore.
  - rewrite get_model_unchanged. apply reads_only_refl.
  - rewrite has_app_unchanged. apply reads_only_refl.
  - rewrite get_registered_model_effect. apply all_models_getitem_reads_only.
Qed.

Lemma for_each_perform reads self :
  for_each perform reads self = (Ok tt, (for_each perform reads self).2)
  /\ reads_only self (for_each perform reads self).2.
Proof.
  revert self. induction reads as [|r reads IH]; intros self; simpl.
  - split; [done|apply reads_only_refl].
  - unfold bind. destruct (perform_reads_only r self) as [-> Hone].
    destruct (IH (perform r self).2) as [Hrun Hrest].
    split; [by rewrite Hrun|by eapply reads_only_trans].
Qed.

(** A hook returns or faults, and alters nothing. *)
Lemma setup_cases app_config self :
  setup app_config self =
  (match AppConfig.setup app_config with
   | Some message => Raise (Fault message)
   | None => Ok tt
   end, (for_each perform (AppConfig.setup_reads app_config) self).2).
Proof.
  unfold setup, bind.
  destruct (for_each_perform (AppConfig.setup_reads app_config) self) as [-> _].
  by destruct (AppConfig.setup app_config).
Qed.

Lemma setup_reads_only app_config self :
  reads_only self (setup app_config self).2.
Proof. rewrite setup_cases. simpl. apply for_each_perform. Qed.

Lemma for_each_setup_reads_only configs self :
  reads_only self (for_each setup configs self).2.
Proof.
  apply (for_each_invariant (reads_only self)); [|apply reads_only_refl].
  intros x s Hs. eapply reads_only_trans; [exact Hs|apply setup_reads_only].
Qed.

(** [populate] on a registry that is not ready and has no application:
    the two loops, the flag, the hooks. *)
Lemma populate_fresh installed self :
  ready self = false ->
  app_configs self = [] ->
  populate create (Some installed) self =
  match for_each (load_app_config create) installed self with
  | (Raise e, self1) => (Raise e, self1)
  | (Ok _, self1) =>
      match for_each load_models (OrderedDict.values (app_configs self1)) self1 with
      | (Raise e, self2) => (Raise e, self2)
      | (Ok _, self2) =>
          for_each setup (OrderedDict.values (app_configs self2))
            (with_ready true (with_get_models_cache ∅ self2))
      end
  end.
Proof.
  intros Hready Hempty.
  unfold populate, get_app_configs, check_ready, clear_cache. run_monad.
  do 2 (rewrite Hready; simpl). rewrite Hempty; simpl.
  destruct (for_each (load_app_config create) installed self)
    as [[[]|e] self1]; [|done].
  destruct (for_each load_models (OrderedDict.values (app_configs self1)) self1)
    as [[[]|e] self2]; done.
Qed.

(** [populate] returns at once when the registry is ready. *)
Lemma populate_when_ready installed_apps self :
  ready self = true ->
  populate create installed_apps self = (Ok tt, self).
Proof. intros Hready. unfold populate. run_monad. by rewrite Hready. Qed.

(** [populate] refuses a registry that is not ready but has applications. *)
Lemma populate_not_reentrant installed_apps self :
  ready self = false ->
  app_configs self <> [] ->
  populate create installed_apps self = (Raise RuntimeError_not_reentrant, self).
Proof.
  intros Hready Hne. unfold populate. run_monad.
  do 2 (rewrite Hready; simpl).
  destruct (app_configs self); done.
Qed.

End RegistryFacts.

(** ** [populate] *)

Section PopulateFacts.

Variable create : string -> string + AppConfig.t.

Lemma for_each_raises_from {A} (body : A -> M unit) (P : exn -> Prop) l :
  (forall x s e s', body x s = (Raise e, s') -> P e) ->
  forall s e s', for_each body l s = (Raise e, s') -> P e.
Proof.
  intros Hbody. induction l as [|x l IH]; intros s e s'; simpl; [done|].
  unfold bind. destruct (body x s) as [[[]|e0] s0] eqn:Hx.
  - apply IH.
  - intros [= <- <-]. eauto.
Qed.

Lemma register_model_raises app_label model s e s' :
  register_model app_label model s = (Raise e, s') -> from_loading e.
Proof.
  destruct (register_model_cases app_label model s)
    as [[_ ->]|(existing & _ & ->)]; [done|].
  by intros [= <- <-].
Qed.

Lemma load_models_raises app_config s e s' :
  load_models app_config s = (Raise e, s') -> from_loading e.
Proof.
  unfold load_models, bind.
  destruct (all_models_getitem_ok (AppConfig.label app_config) s)
    as [app_models ->].
  unfold import_models.
  destruct (AppConfig.load app_config) as [message|models].
  - by intros [= <- <-].
  - apply for_each_raises_from. intros x s0 e0 s0'.
    apply register_model_raises.
Qed.

Lemma setup_raises app_config s e s' :
  setup app_config s = (Raise e, s') -> from_loading e.
Proof.
  rewrite setup_cases. destruct (AppConfig.setup app_config); [|done].
  by intros [= <- _].
Qed.

Lemma last_labelled_cons app_label c configs :
  last_labelled app_label (c :: configs) =
  match last_labelled app_label configs with
  | Some c' => Some c'
  | None => if decide (AppConfig.label c = app_label) then Some c else None
  end.
Proof.
  unfold last_labelled. simpl rev.
  induction (rev configs) as [|c' l IH]; simpl.
  - by destruct (decide (AppConfig.label c = app_label));
      [rewrite bool_decide_eq_true_2|rewrite bool_decide_eq_false_2].
  - by destruct (bool_decide (AppConfig.label c' = app_label)).
Qed.

(** The first loop never refuses a label: it stores every configuration
    under its label, a later one in the place of an earlier one, and a new
    label after the labels that are there. *)
Lemma load_app_configs_overwrite installed configs :
  Forall2 (fun e c => resolve create e = inr c) installed configs ->
  forall self, exists self1,
    for_each (load_app_config create) installed self = (Ok tt, self1)
    /\ (forall app_label,
          OrderedDict.get app_label (app_configs self1) =
          match last_labelled app_label configs with
          | Some c => Some c
          | None => OrderedDict.get app_label (app_configs self)
          end)
    /\ OrderedDict.keys (app_configs self1)
       = (OrderedDict.keys (app_configs self)
          ++ filter (fun y => y ∉ OrderedDict.keys (app_configs self))
               (first_occurrences (AppConfig.label <$> configs)))%list.
Proof.
  induction 1 as [|e c installed configs He _ IH]; intros self.
  - exists self. split; [done|]. split; [done|]. simpl. by rewrite app_nil_r.
  - set (self0 :=
           with_app_configs
             (OrderedDict.set (AppConfig.label c) c (app_configs self)) self).
    destruct (IH self0) as (self1 & Hrun & Hget & Hkeys).
    exists self1. split; [|split].
    + simpl. unfold bind.
      replace (load_app_config create e self) with (Ok tt, self0); [done|].
      unfold load_app_config. run_monad.
      destruct e as [app_config|dotted]; simpl in He.
      * by injection He as ->.
      * by rewrite He.
    + intros app_label. rewrite Hget, last_labelled_cons.
      destruct (last_labelled app_label configs); [done|].
      subst self0; simpl.
      destruct (decide (AppConfig.label c = app_label)) as [<-|Hne].
      * apply od_get_set_eq.
      * by apply od_get_set_ne.
    + rewrite Hkeys. subst self0. simpl app_configs.
      rewrite od_keys_set, fmap_cons. apply first_occurrences_step.
Qed.

(** After the first loop, [populate] does not touch [app_configs] again. *)
Lemma populate_fresh_outcome installed self self1 :
  ready self = false ->
  app_configs self = [] ->
  for_each (load_app_config create) installed self = (Ok tt, self1) ->
  app_configs (populate create (Some installed) self).2 = app_configs self1
  /\ match (populate create (Some installed) self).1 with
     | Ok _ => True
     | Raise e => from_loading e
     end.
Proof.
  intros Hready Hempty Hloop1.
  rewrite populate_fresh, Hloop1 by done.
  pose proof (for_each_imports load_models
                (OrderedDict.values (app_configs self1)) self1
                load_models_imports) as ((Hcfg & _ & _) & _ & _ & _).
  destruct (for_each load_models (OrderedDict.values (app_configs self1)) self1)
    as [[[]|e] self2] eqn:Hloop2; simpl in *.
  - pose proof (for_each_setup_reads_only
                  (OrderedDict.values (app_configs self2))
                  (with_ready true (with_get_models_cache ∅ self2)))
      as ((_ & Hset & _) & _).
    destruct (for_each setup (OrderedDict.values (app_configs self2))
                (with_ready true (with_get_models_cache ∅ self2)))
      as [[[]|e] self3] eqn:Hloop3; simpl in *;
      (split; [congruence|]); [done|].
    eapply (for_each_raises_from setup from_loading); [|exact Hloop3].
    intros ????. apply setup_raises.
  - split; [done|].
    eapply (for_each_raises_from load_models from_loading); [|exact Hloop2].
    intros ????. apply load_models_raises.
Qed.

(** The models that a completed import has yielded are registered. *)
Lemma for_each_register_own models :
  forall s s',
    for_each (fun model => register_model (meta_app_label model) model) models s
    = (Ok tt, s') ->
    forall model,
      model ∈ models ->
      registered s' (meta_app_label model) (model_name model) = Some model.
Proof.
  induction models as [|first models IH]; intros s s'; simpl.
  { intros _ model Hin. by apply elem_of_nil in Hin. }
  unfold bind.
  destruct (register_model_cases (meta_app_label first) first s)
    as [[_ Hok]|(existing & _ & Hko)]; [rewrite Hok|by rewrite Hko].
  intros Hrest model Hin. apply elem_of_cons in Hin as [->|Hin];
    [|by eapply IH].
  match type of Hrest with
  | for_each _ _ ?s1 = _ =>
      pose proof (for_each_imports
                    (fun model => register_model (meta_app_label model) model)
                    models s1 register_own_model_imports) as (_ & Hgrows & _)
  end.
  rewrite Hrest in Hgrows. apply Hgrows.
  change (registered (with_get_models_cache ∅ ?s)) with (registered s).
  rewrite registered_after_insert. by rewrite decide_True.
Qed.

Lemma load_models_registers app_config models s s' :
  load_models app_config s = (Ok tt, s') ->
  AppConfig.load app_config = inr models ->
  forall model,
    model ∈ models ->
    registered s' (meta_app_label model) (model_name model) = Some model.
Proof.
  unfold load_models, bind.
  destruct (all_models_getitem_ok (AppConfig.label app_config) s)
    as [app_models ->].
  unfold import_models. intros Hrun Hload. rewrite Hload in Hrun.
  by eapply for_each_register_own.
Qed.

Lemma for_each_load_models_registers loaded :
  forall s s',
    for_each load_models loaded s = (Ok tt, s') ->
    forall app_config models model,
      app_config ∈ loaded ->
      AppConfig.load app_config = inr models ->
      model ∈ models ->
      registered s' (meta_app_label model) (model_name model) = Some model.
Proof.
  induction loaded as [|first loaded IH]; intros s s'; simpl.
  { intros _ app_config models model Hin. by apply elem_of_nil in Hin. }
  unfold bind. destruct (load_models first s) as [[[]|e] s1] eqn:Hfirst; [|done].
  intros Hrest app_config models model Hin Hload Hmodel.
  apply elem_of_cons in Hin as [->|Hin]; [|by eapply IH].
  pose proof (for_each_imports load_models loaded s1 load_models_imports)
    as (_ & Hgrows & _).
  rewrite Hrest in Hgrows. apply Hgrows.
  by eapply load_models_registers.
Qed.

End PopulateFacts.

(** C4: when the registry is ready, [populate] returns at once, whatever
    its argument, and the registry it leaves is the one it found: the same
    applications, models, stack, cache and flag. *)
Theorem populate_idempotent_when_ready create installed_apps self :
  ready self = true ->
  populate create installed_apps self = (Ok tt, self).
Proof.
  intros Hready. unfold populate. run_monad. by rewrite Hready.
Qed.

Lemma populate_idempotent_when_ready_witness :
  ready demo_ready = true
  /\ populate Demo.create None demo_ready = (Ok tt, demo_ready).
Proof.
  split; [reflexivity|].
  apply (populate_idempotent_when_ready Demo.create None demo_ready).
  reflexivity.
Defined.

(** C1 (as amended): when the second loop of [populate] raises, [populate]
    raises the same exception, the registry is left not ready with all the
    applications of the first loop and with every model registered so far:
    the models it held before, and the models of every application whose
    import completed before the fault. Any later call of [populate] is
    refused as reentrant, leaving the registry, these models included, as
    it is. *)
Theorem populate_partial_failure_blocks_retry
    create installed self self1 e self2 :
  ready self = false ->
  app_configs self = [] ->
  for_each (load_app_config create) installed self = (Ok tt, self1) ->
  for_each load_models (OrderedDict.values (app_configs self1)) self1
    = (Raise e, self2) ->
  populate create (Some installed) self = (Raise e, self2)
  /\ ready self2 = false
  /\ app_configs self2 = app_configs self1
  /\ app_configs self2 <> []
  /\ store_grows self self2
  /\ (forall loaded rest mid,
        OrderedDict.values (app_configs self1) = (loaded ++ rest)%list ->
        for_each load_models loaded self1 = (Ok tt, mid) ->
        store_grows mid self2
        /\ forall app_config models model,
             app_config ∈ loaded ->
             AppConfig.load app_config = inr models ->
             model ∈ models ->
             registered self2 (meta_app_label model) (model_name model)
             = Some model)
  /\ forall retry,
       populate create retry self2 = (Raise RuntimeError_not_reentrant, self2).
Proof.
  intros Hready Hempty Hloop1 Hloop2.
  pose proof (for_each_load_app_config_same_store create installed self)
    as (Hstore1 & _ & Hready1 & _).
  pose proof (for_each_imports load_models
                (OrderedDict.values (app_configs self1)) self1
                load_models_imports) as ((Hcfg & _ & Hready2) & Hgrows & _ & _).
  pose proof Hloop2 as Hloop2'.
  rewrite Hloop1 in Hstore1, Hready1. rewrite Hloop2 in Hcfg, Hready2, Hgrows.
  simpl in *.
  assert (Hnot_ready : ready self2 = false) by congruence.
  assert (Hne : app_configs self2 <> []).
  { rewrite Hcfg. apply for_each_raise_nonempty in Hloop2.
    unfold OrderedDict.values in Hloop2. by destruct (app_configs self1). }
  split; [by rewrite populate_fresh, Hloop1, Hloop2|].
  do 3 (split; [done|]). split; [|split].
  - intros app_label name model Hreg. apply Hgrows.
    unfold registered in *. by rewrite Hstore1.
  - intros loaded rest mid Hsplit Hloaded.
    rewrite Hsplit, for_each_app, Hloaded in Hloop2'.
    pose proof (for_each_imports load_models rest mid load_models_imports)
      as (_ & Hgrows' & _).
    rewrite Hloop2' in Hgrows'. simpl in Hgrows'. split; [done|].
    intros app_config models model Hin Hload Hmodel. apply Hgrows'.
    by eapply for_each_load_models_registers.
  - intros retry. by apply populate_not_reentrant.
Qed.

Lemma populate_partial_failure_blocks_retry_witness :
  populate Demo.create (Some [Path "pkg.A"; Instance Demo.Broken]) init
    = (Raise (Fault "ImportError"), demo_failed)
  /\ ready demo_failed = false
  /\ registered demo_failed "A" "gadget" = Some Demo.Gadget
  /\ forall retry,
       populate Demo.create retry demo_failed
       = (Raise RuntimeError_not_reentrant, demo_failed).
Proof.
  pose proof (populate_partial_failure_blocks_retry Demo.create
                [Path "pkg.A"; Instance Demo.Broken] init
                (for_each (load_app_config Demo.create)
                   [Path "pkg.A"; Instance Demo.Broken] init).2
                (Fault "ImportError") demo_failed
                eq_refl eq_refl) as H.
  destruct H as (H1 & H2 & _ & _ & _ & H5 & H6).
  - vm_compute. reflexivity.
  - vm_compute. reflexivity.
  - split; [exact H1|]. split; [exact H2|]. split; [|exact H6].
    destruct (H5 [Demo.A] [Demo.Broken]
                (for_each load_models [Demo.A]
                   (for_each (load_app_config Demo.create)
                      [Path "pkg.A"; Instance Demo.Broken] init).2).2)
      as [_ Hkept]; [reflexivity|vm_compute; reflexivity|].
    apply (Hkept Demo.A [Demo.Gadget] Demo.Gadget);
      [apply list_elem_of_here|reflexivity|apply list_elem_of_here].
Defined.

(** C1 fails as stated: [populate] fails on [Broken] after the models of
    [A] are registered; the corrected list [B] conflicts with nothing in
    the RecordStore, and still the second call is refused at its entry. *)
Lemma populate_retry_refused_counterexample :
  populate Demo.create (Some [Path "pkg.A"; Instance Demo.Broken]) init
    = (Raise (Fault "ImportError"), demo_failed)
  /\ ready demo_failed = false
  /\ registered demo_failed "A" "gadget" = Some Demo.Gadget
  /\ registered demo_failed "B" "widget" = None
  /\ populate Demo.create (Some [Path "pkg.B"]) demo_failed
     = (Raise RuntimeError_not_reentrant, demo_failed)
  /\ populate Demo.create (Some [Path "pkg.B"]) init
     = (Ok tt, (populate Demo.create (Some [Path "pkg.B"]) init).2).
Proof. repeat split; vm_compute; reflexivity. Qed.

(** C2 (as amended): the first loop of [populate] refuses no label. When
    every entry resolves, the loop completes; the labels stand in the order
    of their first occurrence among the entries, and each label maps to the
    last configuration resolved with it, an earlier one being replaced
    where it stood; the rest of [populate] keeps these applications, and
    what it may still raise comes from loading the models or from the
    hooks. *)
Theorem populate_duplicate_label_replaces create installed configs self :
  ready self = false ->
  app_configs self = [] ->
  Forall2 (fun e c => resolve create e = inr c) installed configs ->
  exists self1,
    for_each (load_app_config create) installed self = (Ok tt, self1)
    /\ OrderedDict.keys (app_configs self1)
       = first_occurrences (AppConfig.label <$> configs)
    /\ (forall app_label,
          OrderedDict.get app_label (app_configs self1)
          = last_labelled app_label configs)
    /\ app_configs (populate create (Some installed) self).2 = app_configs self1
    /\ match (populate create (Some installed) self).1 with
       | Ok _ => True
       | Raise e => from_loading e
       end.
Proof.
  intros Hready Hempty Hres.
  destruct (load_app_configs_overwrite create installed configs Hres self)
    as (self1 & Hloop1 & Hget & Hkeys).
  exists self1. split; [done|]. split; [|split].
  - rewrite Hkeys, Hempty. simpl. apply filter_not_in_nil.
  - intros app_label. rewrite Hget, Hempty. simpl.
    by destruct (last_labelled app_label configs).
  - by apply populate_fresh_outcome.
Qed.

Lemma populate_duplicate_label_replaces_witness :
  exists self1,
    for_each (load_app_config Demo.create)
      [Path "pkg.A"; Path "pkg.B"; Instance Demo.A2] init = (Ok tt, self1)
    /\ OrderedDict.keys (app_configs self1) = ["A"; "B"]
    /\ OrderedDict.get "A" (app_configs self1) = Some Demo.A2
    /\ OrderedDict.get "B" (app_configs self1) = Some Demo.B
    /\ app_configs
         (populate Demo.create
            (Some [Path "pkg.A"; Path "pkg.B"; Instance Demo.A2]) init).2
       = app_configs self1.
Proof.
  destruct (populate_duplicate_label_replaces Demo.create
              [Path "pkg.A"; Path "pkg.B"; Instance Demo.A2]
              [Demo.A; Demo.B; Demo.A2] init)
    as (self1 & Hrun & Hkeys & Hget & Hsame & _).
  - reflexivity.
  - reflexivity.
  - repeat constructor.
  - exists self1. split; [exact Hrun|]. split; [rewrite Hkeys; reflexivity|].
    split; [rewrite Hget; reflexivity|].
    split; [rewrite Hget; reflexivity|exact Hsame].
Defined.

(** C2 fails as stated: the first and the third entry resolve to the label
    [A]; [populate] returns without a fault and the third configuration has
    silently taken the place of the first, before [B]. *)
Lemma populate_duplicate_label_counterexample :
  AppConfig.label Demo.A = AppConfig.label Demo.A2
  /\ Demo.A <> Demo.A2
  /\ (populate Demo.create
        (Some [Path "pkg.A"; Path "pkg.B"; Instance Demo.A2]) init).1
     = Ok tt
  /\ app_configs
       (populate Demo.create
          (Some [Path "pkg.A"; Path "pkg.B"; Instance Demo.A2]) init).2
     = [("A", Demo.A2); ("B", Demo.B)].
Proof. repeat split; try (vm_compute; reflexivity). discriminate. Qed.

(** ** Lookups *)

Lemma rpartition_tail_no_dot_example :
  PyStr.rpartition_tail "." "django.contrib.admin" = "admin"
  /\ PyStr.rpartition_tail "." "admin" = "admin"
  /\ PyStr.index_minus_2 (PyStr.split "." "django.contrib.admin.models") = Some "admin"
  /\ PyStr.index_minus_2 (PyStr.split "." "models") = None
  /\ PyStr.lower "WidGet_9" = "widget_9".
Proof. repeat split; reflexivity. Qed.

(** The scenarios of the specification on the installation [A], [B]. *)
Lemma scenario_install_and_restrict :
  __init__ Demo.create true (Some [Path "pkg.A"; Path "pkg.B"])
    = (Ok tt, demo_ready)
  /\ (get_app_configs demo_ready).1 = Ok [Demo.A; Demo.B]
  /\ (get_app_configs (set_available_apps ["pkg.A"] demo_ready).2).1
     = Ok [Demo.A]
  /\ (get_app_configs
        (unset_available_apps (set_available_apps ["pkg.A"] demo_ready).2).2).1
     = Ok [Demo.A; Demo.B]
  /\ (set_available_apps ["pkg.C"] demo_ready).1
     = Raise (ValueError_not_subset {["pkg.C"]})
  /\ (get_app_configs init).1 = Raise RuntimeError_not_ready.
Proof. repeat split; vm_compute; reflexivity. Qed.

(** [has_app] never raises and never changes the registry, ready or not. *)
Lemma has_app_total app_name self :
  has_app app_name self =
  (Ok (match OrderedDict.get (PyStr.rpartition_tail "." app_name)
               (app_configs self) with
       | Some app_config => bool_decide (AppConfig.name app_config = app_name)
       | None => false
       end), self).
Proof.
  unfold has_app. run_monad.
  by destruct (OrderedDict.get _ (app_configs self)).
Qed.

(** When [has_app] answers [True], an installed application has that name;
    when no application is stored under the last part of the name, it
    answers [False]. *)
Lemma has_app_true_sound app_name self :
  has_app app_name self = (Ok true, self) ->
  exists app_config,
    app_config ∈ OrderedDict.values (app_configs self)
    /\ AppConfig.name app_config = app_name.
Proof.
  rewrite has_app_total. intros [= H].
  destruct (OrderedDict.get _ (app_configs self)) as [app_config|] eqn:Hget;
    [|done].
  exists app_config. split; [by eapply od_get_values|].
  by apply bool_decide_eq_true in H.
Qed.

(** C8: the registry holds one application, [Shop], whose name is
    [pkg.store] and whose label is [shop]. [has_app] looks for the label
    [store], the end of the name, finds nothing, and answers [False] although
    an installed application has that very name. *)
Theorem has_app_misses_custom_label :
  let self := (populate Demo.create (Some [Instance Demo.Shop]) init).2 in
  ready self = true
  /\ Demo.Shop ∈ OrderedDict.values (app_configs self)
  /\ AppConfig.name Demo.Shop = "pkg.store"
  /\ has_app "pkg.store" self = (Ok false, self).
Proof.
  repeat split; try (vm_compute; reflexivity).
  apply list_elem_of_here.
Qed.

(** C10: [get_registered_model] with a label that the RecordStore does not
    have raises [LookupError] and leaves a registry that differs from the
    one it found in the RecordStore alone: the label is now there, with an
    empty [OrderedDict]. *)
Theorem get_registered_model_inserts_label app_label model_name self :
  all_models self !! app_label = None ->
  exists self',
    get_registered_model app_label model_name self
    = (Raise (LookupError_not_registered app_label model_name), self')
    /\ all_models self' = <[app_label := OrderedDict.empty]> (all_models self)
    /\ all_models self' !! app_label = Some OrderedDict.empty
    /\ all_models self' <> all_models self
    /\ app_configs self' = app_configs self
    /\ stored_app_configs self' = stored_app_configs self
    /\ ready self' = ready self
    /\ get_models_cache self' = get_models_cache self.
Proof.
  intros Hnone.
  exists (with_all_models
            (<[app_label := OrderedDict.empty]> (all_models self)) self).
  unfold get_registered_model, all_models_getitem. run_monad.
  rewrite Hnone; simpl. rewrite lookup_insert_eq.
  repeat split.
  intros Heq. apply (f_equal (fun m => m !! app_label)) in Heq.
  rewrite lookup_insert_eq, Hnone in Heq. discriminate.
Qed.

Lemma get_registered_model_inserts_label_witness :
  all_models demo_ready !! "ghost" = None
  /\ exists self',
       get_registered_model "ghost" "Widget" demo_ready
       = (Raise (LookupError_not_registered "ghost" "Widget"), self')
       /\ all_models self' = <["ghost" := OrderedDict.empty]> (all_models demo_ready)
       /\ all_models self' !! "ghost" = Some OrderedDict.empty
       /\ all_models self' <> all_models demo_ready
       /\ app_configs self' = app_configs demo_ready
       /\ stored_app_configs self' = stored_app_configs demo_ready
       /\ ready self' = ready demo_ready
       /\ get_models_cache self' = get_models_cache demo_ready.
Proof.
  split; [reflexivity|].
  apply (get_registered_model_inserts_label "ghost" "Widget" demo_ready).
  reflexivity.
Defined.

(** [get_registered_model] finds what is registered, whatever the case of
    the name it is asked, and then changes nothing. *)
Lemma get_registered_model_found app_label asked model self :
  registered self app_label (PyStr.lower asked) = Some model ->
  get_registered_model app_label asked self = (Ok model, self).
Proof.
  unfold registered, get_registered_model, all_models_getitem. run_monad.
  destruct (all_models self !! app_label) as [app_models|]; simpl; [|done].
  by intros ->.
Qed.

(** C9: in a ready registry, when the installed application of label
    [app_label] has a model of name [declared] among its models,
    [get_model] returns that model for every name [asked] that is
    [declared] up to the case of its letters. *)
Theorem get_model_case_insensitive
    app_label app_config declared asked model self :
  ready self = true ->
  OrderedDict.get app_label (app_configs self) = Some app_config ->
  AppConfig.label app_config = app_label ->
  meta_object_name model = declared ->
  registered self app_label (model_name model) = Some model ->
  PyStr.same_ignoring_case asked declared ->
  get_model app_label asked self = (Ok model, self).
Proof.
  intros Hready Hcfg Hlabel Hname Hreg Hcase.
  unfold get_model, get_app_config, check_ready, models_of. run_monad.
  rewrite Hready; simpl. rewrite Hready; simpl. rewrite Hcfg; simpl.
  unfold AppConfig.get_model. rewrite lower_idempotent.
  unfold registered, model_name in Hreg. rewrite Hlabel.
  unfold PyStr.same_ignoring_case in Hcase. rewrite Hcase, <- Hname.
  destruct (all_models self !! app_label) as [app_models|]; simpl in *; [|done].
  by rewrite Hreg.
Qed.

Lemma get_model_case_insensitive_witness :
  get_model "B" "widget" demo_ready = (Ok Demo.Widget, demo_ready)
  /\ get_model "B" "Widget" demo_ready = (Ok Demo.Widget, demo_ready)
  /\ get_model "B" "wIDGET" demo_ready = (Ok Demo.Widget, demo_ready).
Proof.
  split; [|split];
    apply (get_model_case_insensitive "B" Demo.B "Widget" _ Demo.Widget demo_ready);
    reflexivity.
Defined.

(** ** What each method does to the registry *)

Section MethodFacts.

Variable create : string -> string + AppConfig.t.

Lemma keeps_models_refl self : keeps_models self self.
Proof. split; [apply store_grows_refl|done]. Qed.

Lemma populate_keeps_models installed_apps self :
  keeps_models self (populate create installed_apps self).2.
Proof.
  destruct (ready self) eqn:Hready.
  { rewrite populate_when_ready by done. apply keeps_models_refl. }
  destruct (app_configs self) as [|item configs] eqn:Hconfigs.
  2: { rewrite populate_not_reentrant by (done || by rewrite Hconfigs).
       apply keeps_models_refl. }
  destruct installed_apps as [installed|].
  2: { unfold populate. run_monad. do 2 (rewrite Hready; simpl).
       rewrite Hconfigs; simpl. apply keeps_models_refl. }
  rewrite populate_fresh by done.
  pose proof (for_each_load_app_config_same_store create installed self)
    as (Hstore1 & Hstack1 & _ & _).
  destruct (for_each (load_app_config create) installed self)
    as [r1 self1]; simpl in *.
  assert (Hstep1 : keeps_models self self1).
  { unfold keeps_models, store_grows, store_owned, registered.
    rewrite Hstore1, Hstack1. done. }
  destruct r1 as [[]|e]; [|done].
  pose proof (for_each_imports load_models
                (OrderedDict.values (app_configs self1)) self1
                load_models_imports) as ((_ & Hstack2 & _) & Hgrows & Hown & _).
  destruct (for_each load_models (OrderedDict.values (app_configs self1)) self1)
    as [r2 self2]; simpl in *.
  destruct Hstep1 as (Hgrows1 & Hown1 & Hstack).
  assert (Hstep2 : keeps_models self self2).
  { split; [by eapply store_grows_trans|].
    split; [auto|congruence]. }
  destruct r2 as [[]|e]; [|done].
  destruct (for_each_setup_reads_only (OrderedDict.values (app_configs self2))
              (with_ready true (with_get_models_cache ∅ self2)))
    as [Hview Hstack3].
  destruct Hstep2 as (Hg & Ho & Hs). split; [|split].
  - intros app_label name model Hreg.
    rewrite (same_view_registered _ _ _ _ Hview). by apply Hg.
  - intros Howned. apply (same_view_store_owned _ _ Hview). by apply Ho.
  - by rewrite Hstack3.
Qed.

(** When [populate] completes on a registry that was not ready, the
    registry is ready. *)
Lemma populate_completes installed_apps self self' :
  ready self = false ->
  populate create installed_apps self = (Ok tt, self') ->
  ready self' = true.
Proof.
  intros Hready.
  destruct (app_configs self) as [|item configs] eqn:Hconfigs.
  2: { by rewrite populate_not_reentrant by (done || by rewrite Hconfigs). }
  destruct installed_apps as [installed|].
  2: { unfold populate. run_monad. do 2 (rewrite Hready; simpl).
       by rewrite Hconfigs. }
  rewrite populate_fresh by done.
  destruct (for_each (load_app_config create) installed self)
    as [[[]|e] self1]; [|done].
  destruct (for_each load_models (OrderedDict.values (app_configs self1)) self1)
    as [[[]|e] self2]; [|done].
  intros Hsetup.
  pose proof (for_each_setup_reads_only
                (OrderedDict.values (app_configs self2))
                (with_ready true (with_get_models_cache ∅ self2)))
    as ((Hsame & _) & _).
  by rewrite Hsetup in Hsame.
Qed.

(** [set_installed_apps] on a ready registry, whatever it returns. *)
Lemma set_installed_apps_ready installed self :
  ready self = true ->
  let self1 := (set_installed_apps create installed self).2 in
  stored_app_configs self1 = app_configs self :: stored_app_configs self
  /\ store_grows self self1
  /\ (store_owned self -> store_owned self1).
Proof.
  intros Hready.
  unfold set_installed_apps, check_ready, push_app_configs, clear_cache.
  run_monad. rewrite Hready; simpl.
  match goal with
  | |- context [populate create (Some installed) ?s] =>
      pose proof (populate_keeps_models (Some installed) s)
        as (Hgrows & Hown & Hstack);
      destruct (populate create (Some installed) s) as [r self1]
  end.
  simpl in *. split; [done|]. split; done.
Qed.

Lemma set_installed_apps_not_ready installed self :
  ready self = false ->
  set_installed_apps create installed self = (Raise RuntimeError_not_ready, self).
Proof.
  intros Hready. unfold set_installed_apps, check_ready. run_monad.
  by rewrite Hready.
Qed.

(** *** The stack *)

Lemma set_available_apps_ok available self self' :
  set_available_apps available self = (Ok tt, self') ->
  stored_app_configs self' = app_configs self :: stored_app_configs self
  /\ all_models self' = all_models self
  /\ ready self' = ready self
  /\ get_models_cache self' = ∅.
Proof.
  unfold set_available_apps, get_app_configs, check_ready, push_app_configs,
    clear_cache. run_monad.
  destruct (ready self) eqn:Hready; simpl; [|done].
  destruct (bool_decide _); simpl; [|done].
  by intros [= <-].
Qed.

Lemma set_available_apps_state available self :
  let self' := (set_available_apps available self).2 in
  all_models self' = all_models self /\ ready self' = ready self.
Proof.
  unfold set_available_apps, get_app_configs, check_ready, push_app_configs,
    clear_cache. run_monad.
  destruct (ready self) eqn:Hready; simpl; [|done].
  by destruct (bool_decide _).
Qed.

Lemma unset_available_apps_cases self :
  match stored_app_configs self with
  | [] => unset_available_apps self = (Raise IndexError, self)
  | top :: rest =>
      unset_available_apps self =
      (Ok tt,
       with_get_models_cache ∅
         (with_app_configs top (with_stored_app_configs rest self)))
  end.
Proof.
  unfold unset_available_apps, pop_app_configs, clear_cache. run_monad.
  by destruct (stored_app_configs self).
Qed.

Lemma unset_installed_apps_cases self :
  match stored_app_configs self with
  | [] => unset_installed_apps self = (Raise IndexError, self)
  | top :: rest =>
      unset_installed_apps self =
      (Ok tt,
       with_get_models_cache ∅
         (with_ready true
            (with_app_configs top (with_stored_app_configs rest self))))
  end.
Proof.
  unfold unset_installed_apps, pop_app_configs, clear_cache. run_monad.
  by destruct (stored_app_configs self).
Qed.

(** *** Every call *)

(** No call removes or replaces a model of the RecordStore. *)
Lemma invoke_store_grows c self : store_grows self (invoke create c self).2.
Proof.
  destruct c; simpl; rewrite ?discard_state.
  - apply populate_keeps_models.
  - rewrite get_app_configs_unchanged. apply store_grows_refl.
  - rewrite get_app_config_unchanged. apply store_grows_refl.
  - apply store_grows_same.
    apply (get_models_effect app_mod include_auto_created include_deferred
             include_swapped self).
  - rewrite get_model_unchanged. apply store_grows_refl.
  - intros ????. by apply register_model_keeps.
  - rewrite has_app_total. apply store_grows_refl.
  - rewrite get_registered_model_effect.
    intros ??? H. by rewrite all_models_getitem_registered.
  - apply store_grows_same, set_available_apps_state.
  - pose proof (unset_available_apps_cases self) as H.
    destruct (stored_app_configs self); rewrite H; by apply store_grows_same.
  - destruct (ready self) eqn:Hready.
    + by apply set_installed_apps_ready.
    + rewrite set_installed_apps_not_ready by done. apply store_grows_refl.
  - pose proof (unset_installed_apps_cases self) as H.
    destruct (stored_app_configs self); rewrite H; by apply store_grows_same.
Qed.

Lemma after_store_grows calls self : store_grows self (after create calls self).
Proof.
  revert self. induction calls as [|c calls IH]; intros self; simpl.
  - apply store_grows_refl.
  - eapply store_grows_trans; [apply invoke_store_grows|apply IH].
Qed.

(** A call that alters nothing keeps what the table of [get_models] holds. *)
Lemma invoke_keeps_cache c self key models :
  alters c = false ->
  get_models_cache self !! key = Some models ->
  get_models_cache (invoke create c self).2 !! key = Some models.
Proof.
  destruct c; simpl; try done; intros _; rewrite ?discard_state.
  - by rewrite get_app_configs_unchanged.
  - by rewrite get_app_config_unchanged.
  - by apply get_models_effect.
  - by rewrite get_model_unchanged.
  - by rewrite has_app_total.
  - rewrite get_registered_model_effect. unfold all_models_getitem.
    by destruct (all_models self !! app_label).
Qed.

Lemma after_keeps_cache calls self key models :
  Forall (fun c => alters c = false) calls ->
  get_models_cache self !! key = Some models ->
  get_models_cache (after create calls self) !! key = Some models.
Proof.
  intros Hcalls. revert self.
  induction Hcalls as [|c calls Hc _ IH]; intros self Hkey; simpl; [done|].
  by apply IH, invoke_keeps_cache.
Qed.

End MethodFacts.

(** ** Registration of models *)

(** C6: once a model is registered under a label, and whatever calls the
    registry receives afterwards, registering under the same label a model
    whose name is the same up to the case of its letters raises the
    conflict that names the model in place and the incoming one, changes
    nothing, and the model in place is still the first one. The two models
    are any two: either may come first. *)
Theorem register_model_conflict create app_label first second calls self self1 :
  PyStr.same_ignoring_case (meta_object_name first) (meta_object_name second) ->
  register_model app_label first self = (Ok tt, self1) ->
  register_model app_label second (after create calls self1)
  = (Raise (RuntimeError_conflicting (model_name second) app_label first second),
     after create calls self1)
  /\ registered (after create calls self1) app_label (model_name first)
     = Some first.
Proof.
  intros Hcase Hfirst.
  assert (Hreg : registered self1 app_label (model_name first) = Some first).
  { destruct (register_model_cases app_label first self)
      as [[_ Hok]|(existing & _ & Hko)]; [|congruence].
    rewrite Hok in Hfirst. injection Hfirst as <-.
    change (registered (with_get_models_cache ∅ ?s)) with (registered s).
    rewrite registered_after_insert. by rewrite decide_True. }
  apply (after_store_grows create calls) in Hreg.
  split; [|done].
  apply register_model_existing.
  unfold model_name in *. unfold PyStr.same_ignoring_case in Hcase.
  by rewrite <- Hcase.
Qed.

Lemma register_model_conflict_witness :
  let WIDGET :=
    {| meta_app_label := "B"; meta_object_name := "WIDGET";
       meta_auto_created := false; deferred := true; meta_swapped := false |} in
  let self1 := (register_model "B" Demo.Widget init).2 in
  let self2 :=
    after Demo.create
      [GetRegisteredModel "C" "x"; Populate (Some [Path "pkg.A"]);
       SetInstalledApps [Path "pkg.B"]; UnsetInstalledApps] self1 in
  register_model "B" WIDGET self2
  = (Raise (RuntimeError_conflicting "widget" "B" Demo.Widget WIDGET), self2)
  /\ registered self2 "B" "widget" = Some Demo.Widget.
Proof.
  intros WIDGET self1 self2.
  apply (register_model_conflict Demo.create "B" Demo.Widget WIDGET
           [GetRegisteredModel "C" "x"; Populate (Some [Path "pkg.A"]);
            SetInstalledApps [Path "pkg.B"]; UnsetInstalledApps] init self1).
  - reflexivity.
  - vm_compute. reflexivity.
Defined.

(** ** The stack of application sets *)

Section StackFacts.

Variable create : string -> string + AppConfig.t.

Lemma last_cons_default {A} (l : list A) (x y : A) :
  List.last (x :: l) y = List.last l x.
Proof.
  revert x y. induction l as [|z l IH]; intros x y; [done|].
  change (List.last (z :: l) y = List.last (z :: l) x). by rewrite !IH.
Qed.

(** A call of [set_available_apps] or [unset_available_apps] that returns
    moves the depth of the stack by one and keeps its bottom. *)
Lemma subset_call_step c self self' :
  subset_call c ->
  invoke create c self = (Ok tt, self') ->
  List.length (stored_app_configs self') + pops [c]
  = List.length (stored_app_configs self) + pushes [c]
  /\ bottom self' = bottom self.
Proof.
  destruct c; simpl; try done; intros _ Hok.
  - unfold set_available_apps, get_app_configs, check_ready,
      push_app_configs, clear_cache in Hok. run_monad.
    destruct (ready self) eqn:Hready; simpl in Hok; [|done].
    destruct (bool_decide _); simpl in Hok; [|done].
    injection Hok as <-. unfold bottom, pops, pushes; simpl.
    split; [lia|].
    apply last_cons_default.
  - pose proof (unset_available_apps_cases self) as H.
    unfold bottom, pops, pushes.
    destruct (stored_app_configs self) as [|top rest] eqn:Hstack;
      rewrite H in Hok; [done|].
    injection Hok as <-. simpl stored_app_configs. simpl app_configs.
    split; [simpl; lia|].
    symmetry. apply last_cons_default.
Qed.

Lemma pushes_cons c calls : pushes (c :: calls) = pushes [c] + pushes calls.
Proof. unfold pushes. simpl. by destruct c. Qed.

Lemma pops_cons c calls : pops (c :: calls) = pops [c] + pops calls.
Proof. unfold pops. simpl. by destruct c. Qed.

Lemma subset_calls_run calls :
  Forall subset_call calls ->
  forall self self',
    for_each (invoke create) calls self = (Ok tt, self') ->
    List.length (stored_app_configs self') + pops calls
    = List.length (stored_app_configs self) + pushes calls
    /\ bottom self' = bottom self.
Proof.
  induction 1 as [|c calls Hc _ IH]; intros self self'; simpl.
  - by intros [= <-].
  - unfold bind.
    destruct (invoke create c self) as [[[]|e] self1] eqn:Hstep; [|done].
    intros Hrest.
    destruct (subset_call_step c self self1 Hc Hstep) as [Hdepth Hbottom].
    destruct (IH self1 self' Hrest) as [Hdepth' Hbottom'].
    rewrite pushes_cons, pops_cons. split; [lia|congruence].
Qed.

End StackFacts.

(** C5: [set_available_apps] followed at once by [unset_available_apps]
    gives back the applications it found, in their order, and the stack
    (the models and the flag were never touched). From an empty stack, a
    sequence of the two calls that all return, with as many of the one as of
    the other, ends with the applications it started from, and one more
    [unset_available_apps] raises [IndexError] and changes nothing; and no
    sequence with more [unset_available_apps] than [set_available_apps]
    can run to its end. *)
Theorem subset_stack_balance create :
  (forall available self self1,
     set_available_apps available self = (Ok tt, self1) ->
     exists self2,
       unset_available_apps self1 = (Ok tt, self2)
       /\ app_configs self2 = app_configs self
       /\ stored_app_configs self2 = stored_app_configs self
       /\ all_models self2 = all_models self
       /\ ready self2 = ready self)
  /\ (forall calls self self',
        stored_app_configs self = [] ->
        Forall subset_call calls ->
        for_each (invoke create) calls self = (Ok tt, self') ->
        pops calls = pushes calls ->
        app_configs self' = app_configs self
        /\ unset_available_apps self' = (Raise IndexError, self'))
  /\ (forall calls self,
        stored_app_configs self = [] ->
        Forall subset_call calls ->
        pushes calls < pops calls ->
        exists e self', for_each (invoke create) calls self = (Raise e, self')).
Proof.
  split; [|split].
  - intros available self self1 Hpush.
    destruct (set_available_apps_ok available self self1 Hpush)
      as (Hstack & Hstore & Hready & _).
    pose proof (unset_available_apps_cases self1) as Hpop.
    rewrite Hstack in Hpop. eexists. split; [exact Hpop|]. by repeat split.
  - intros calls self self' Hempty Hcalls Hrun Hbalance.
    destruct (subset_calls_run create calls Hcalls self self' Hrun)
      as [Hdepth Hbottom].
    rewrite Hempty in Hdepth. simpl in Hdepth.
    assert (Hstack : stored_app_configs self' = []).
    { destruct (stored_app_configs self'); [done|simpl in Hdepth; lia]. }
    unfold bottom in Hbottom. rewrite Hstack, Hempty in Hbottom.
    split; [done|].
    pose proof (unset_available_apps_cases self') as Hpop.
    by rewrite Hstack in Hpop.
  - intros calls self Hempty Hcalls Hmore.
    destruct (for_each (invoke create) calls self) as [[[]|e] self'] eqn:Hrun;
      [|by eauto].
    destruct (subset_calls_run create calls Hcalls self self' Hrun)
      as [Hdepth _].
    rewrite Hempty in Hdepth. simpl in Hdepth. lia.
Qed.

Lemma subset_stack_balance_witness :
  let calls :=
    [SetAvailableApps ["pkg.A"]; SetAvailableApps []; UnsetAvailableApps;
     SetAvailableApps ["pkg.A"]; UnsetAvailableApps; UnsetAvailableApps] in
  let self' := (for_each (invoke Demo.create) calls demo_ready).2 in
  (exists self2,
     unset_available_apps (set_available_apps ["pkg.B"] demo_ready).2
     = (Ok tt, self2)
     /\ app_configs self2 = [("A", Demo.A); ("B", Demo.B)])
  /\ app_configs self' = [("A", Demo.A); ("B", Demo.B)]
  /\ unset_available_apps self' = (Raise IndexError, self')
  /\ exists e self3,
       for_each (invoke Demo.create) (calls ++ [UnsetAvailableApps]) demo_ready
       = (Raise e, self3).
Proof.
  intros calls self'.
  destruct (subset_stack_balance Demo.create) as (Hround & Hbalanced & Hmore).
  split; [|split; [|split]].
  - destruct (Hround ["pkg.B"] demo_ready
                (set_available_apps ["pkg.B"] demo_ready).2)
      as (self2 & Hpop & Hconfigs & _).
    + vm_compute. reflexivity.
    + exists self2. split; [exact Hpop|]. rewrite Hconfigs. reflexivity.
  - destruct (Hbalanced calls demo_ready self') as [Hconfigs _].
    + reflexivity.
    + repeat constructor.
    + vm_compute. reflexivity.
    + reflexivity.
    + rewrite Hconfigs. reflexivity.
  - apply (Hbalanced calls demo_ready self').
    + reflexivity.
    + repeat constructor.
    + vm_compute. reflexivity.
    + reflexivity.
  - apply Hmore.
    + reflexivity.
    + repeat constructor.
    + vm_compute. lia.
Defined.

(** ** Models outlive the applications that brought them *)

(** What [get_models] computes comes from the models stored under the
    labels of the installed applications. *)
Lemma get_models_from_installed app_mod a d s models model self self' :
  get_models_cache self = ∅ ->
  get_models app_mod a d s self = (Ok models, self') ->
  model ∈ models ->
  exists app_config app_models,
    app_config ∈ OrderedDict.values (app_configs self)
    /\ all_models self !! AppConfig.label app_config = Some app_models
    /\ model ∈ OrderedDict.values app_models.
Proof.
  intros Hcache. unfold get_models; cbv zeta. rewrite Hcache, lookup_empty.
  assert (Hsub : forall app_config,
             model ∈ AppConfig.get_models
                       (default OrderedDict.empty
                          (all_models self !! AppConfig.label app_config)) a d s ->
             exists app_models,
               all_models self !! AppConfig.label app_config = Some app_models
               /\ model ∈ OrderedDict.values app_models).
  { intros app_config Hin. unfold AppConfig.get_models in Hin.
    apply list_elem_of_In, filter_In in Hin as [Hin _].
    apply list_elem_of_In in Hin.
    destruct (all_models self !! AppConfig.label app_config) as [app_models|];
      simpl in Hin; [by eauto|by apply elem_of_nil in Hin]. }
  unfold get_models_uncached, except_LookupError, get_app_config, models_of,
    check_ready. run_monad.
  destruct (ready self) eqn:Hready; simpl; [|done].
  destruct app_mod as [module_name|].
  - destruct (PyStr.index_minus_2 _) as [app_label|]; [|done].
    rewrite Hready; simpl.
    destruct (OrderedDict.get app_label (app_configs self)) as [app_config|]
      eqn:Hget; simpl.
    + intros [= <- <-] Hin. destruct (Hsub app_config Hin) as (app_models & ? & ?).
      exists app_config, app_models. split; [by eapply od_get_values|done].
    + intros [= <- <-] Hin. by apply elem_of_nil in Hin.
  - intros [= <- <-] Hin.
    apply list_elem_of_In, in_flat_map in Hin as (app_config & Hcfg & Hin).
    apply list_elem_of_In in Hcfg, Hin.
    destruct (Hsub app_config Hin) as (app_models & ? & ?).
    by exists app_config, app_models.
Qed.

Lemma registered_in_values self app_label name model :
  registered self app_label name = Some model ->
  exists app_models,
    all_models self !! app_label = Some app_models
    /\ model ∈ OrderedDict.values app_models.
Proof.
  unfold registered.
  destruct (all_models self !! app_label) as [app_models|]; simpl; [|done].
  intros Hget. exists app_models. split; [done|by eapply od_get_values].
Qed.

Lemma store_owned_label self app_label app_models model :
  store_owned self ->
  all_models self !! app_label = Some app_models ->
  model ∈ OrderedDict.values app_models ->
  meta_app_label model = app_label.
Proof.
  intros Hown Hsub Hin. specialize (Hown _ _ Hsub). simpl in Hown.
  rewrite Forall_forall in Hown. by apply Hown.
Qed.

(** C3: on a ready registry whose models are stored under their own
    labels, [set_installed_apps] (whether it returns or raises) followed by
    [unset_installed_apps] gives back the applications and the stack, and
    every model that the RecordStore held when [set_installed_apps] ended,
    the ones it registered included, is returned by [get_registered_model],
    under any spelling of the case of its name; and when no application that
    is back has its label, no call of [get_models] lists it. *)
Theorem models_survive_unset_installed_apps create installed self :
  ready self = true ->
  store_owned self ->
  exists self2,
    unset_installed_apps (set_installed_apps create installed self).2
    = (Ok tt, self2)
    /\ app_configs self2 = app_configs self
    /\ stored_app_configs self2 = stored_app_configs self
    /\ ready self2 = true
    /\ forall app_label name model,
         registered (set_installed_apps create installed self).2 app_label name
         = Some model ->
         (forall asked,
            PyStr.lower asked = name ->
            get_registered_model app_label asked self2 = (Ok model, self2))
         /\ ((forall app_config,
                app_config ∈ OrderedDict.values (app_configs self) ->
                AppConfig.label app_config <> app_label) ->
             forall app_mod a d s models self3,
               get_models app_mod a d s self2 = (Ok models, self3) ->
               model ∉ models).
Proof.
  intros Hready Hown.
  destruct (set_installed_apps_ready create installed self Hready)
    as (Hstack & _ & Hown1).
  specialize (Hown1 Hown).
  set (self1 := (set_installed_apps create installed self).2) in *.
  pose proof (unset_installed_apps_cases self1) as Hpop.
  rewrite Hstack in Hpop.
  eexists. split; [exact Hpop|]. do 3 (split; [done|]).
  intros app_label name model Hreg. split.
  - intros asked <-. by apply get_registered_model_found.
  - intros Hlabel app_mod a d s models self3 Hcall Hin.
    pose proof (fun Hcache =>
                  get_models_from_installed _ _ _ _ _ model _ _ Hcache Hcall Hin)
      as Hfrom.
    destruct (Hfrom eq_refl) as (app_config & app_models & Hcfg & Hsub & Hin0).
    simpl in Hcfg, Hsub.
    apply registered_in_values in Hreg as (app_models' & Hsub' & Hin').
    apply (Hlabel app_config Hcfg).
    rewrite <- (store_owned_label self1 _ _ model Hown1 Hsub Hin0).
    by rewrite (store_owned_label self1 _ _ model Hown1 Hsub' Hin').
Qed.

Lemma models_survive_unset_installed_apps_witness :
  registered demo_A "B" "widget" = None
  /\ exists self2,
       unset_installed_apps (set_installed_apps Demo.create [Path "pkg.B"] demo_A).2
       = (Ok tt, self2)
       /\ app_configs self2 = [("A", Demo.A)]
       /\ get_registered_model "B" "Widget" self2 = (Ok Demo.Widget, self2)
       /\ (get_models None true true true self2).1 = Ok [Demo.Gadget]
       /\ forall app_mod a d s models self3,
            get_models app_mod a d s self2 = (Ok models, self3) ->
            Demo.Widget ∉ models.
Proof.
  split; [reflexivity|].
  destruct (models_survive_unset_installed_apps Demo.create [Path "pkg.B"] demo_A)
    as (self2 & Hpop & Hconfigs & _ & _ & Hmodels).
  - reflexivity.
  - apply (bool_decide_unpack (store_owned demo_A)). vm_compute. exact I.
  - exists self2. split; [exact Hpop|]. split; [by rewrite Hconfigs|].
    destruct (Hmodels "B" "widget" Demo.Widget) as [Hget Habsent].
    + vm_compute. reflexivity.
    + split; [by apply Hget|]. split.
      * injection Hpop as <-. vm_compute. reflexivity.
      * apply Habsent. intros app_config Hin.
        apply list_elem_of_singleton in Hin as ->. discriminate.
Defined.

(** * Further properties *)


(** ** Well-formed sets of applications *)

Lemma dict_wf_empty : dict_wf OrderedDict.empty.
Proof. split; [apply NoDup_nil_2|constructor]. Qed.

Lemma dict_wf_set app_config (d : list (string * AppConfig.t)) :
  dict_wf d -> dict_wf (OrderedDict.set (AppConfig.label app_config) app_config d).
Proof.
  intros [Hnd Hkeyed]. split; [by apply od_set_NoDup|].
  apply Forall_forall. intros item Hin.
  apply od_set_in in Hin as [->|Hin]; [done|].
  rewrite Forall_forall in Hkeyed. by apply Hkeyed.
Qed.

Lemma dict_wf_filter (f : string * AppConfig.t -> bool)
    (d : list (string * AppConfig.t)) :
  dict_wf d -> dict_wf (List.filter f d).
Proof.
  intros [Hnd Hkeyed]. split; [by apply od_keys_filter_NoDup|].
  apply Forall_forall. intros item Hin.
  apply list_elem_of_In, filter_In in Hin as [Hin _].
  rewrite Forall_forall in Hkeyed. by apply Hkeyed, list_elem_of_In.
Qed.

(** In a well-formed set, the application found under a label is the one
    installed application that has this label. *)
Lemma dict_wf_get (d : list (string * AppConfig.t)) app_label app_config :
  dict_wf d ->
  OrderedDict.get app_label d = Some app_config <->
  app_config ∈ OrderedDict.values d /\ AppConfig.label app_config = app_label.
Proof.
  intros [Hnd Hkeyed]. rewrite Forall_forall in Hkeyed. split.
  - intros Hget. split; [by eapply od_get_values|].
    apply od_get_Some_in in Hget. symmetry. apply (Hkeyed _ Hget).
  - intros [Hin <-]. apply od_in_get; [done|].
    unfold OrderedDict.values in Hin.
    apply list_elem_of_fmap in Hin as ([k c] & -> & Hin).
    by rewrite <- (Hkeyed _ Hin).
Qed.

Lemma dict_wf_labels_NoDup (d : list (string * AppConfig.t)) :
  dict_wf d -> NoDup (AppConfig.label <$> OrderedDict.values d).
Proof.
  intros [Hnd Hkeyed]. unfold OrderedDict.values, OrderedDict.keys in *.
  assert (Heq : fst <$> d = AppConfig.label <$> (snd <$> d)).
  { clear Hnd. induction Hkeyed as [|item d Hitem _ IH]; [done|].
    rewrite !fmap_cons. by rewrite Hitem, IH. }
  by rewrite <- Heq.
Qed.

(** ** Exact results of the methods that change the set of applications *)

Section ChangeFacts.

Variable create : string -> string + AppConfig.t.

Lemma set_available_apps_cases available self :
  let wanted : gset string := list_to_set available in
  let installed : gset string := list_to_set (installed_names self) in
  set_available_apps available self =
  if ready self then
    if bool_decide (wanted ⊆ installed) then
      (Ok tt,
       with_get_models_cache ∅
         (with_app_configs
            (OrderedDict.of_items
               (List.filter
                  (fun item => bool_decide (AppConfig.name item.2 ∈ wanted))
                  (OrderedDict.items (app_configs self))))
            (with_stored_app_configs
               (app_configs self :: stored_app_configs self) self)))
    else (Raise (ValueError_not_subset (wanted ∖ installed)), self)
  else (Raise RuntimeError_not_ready, self).
Proof.
  unfold set_available_apps, get_app_configs, check_ready, push_app_configs,
    clear_cache, installed_names. run_monad.
  destruct (ready self) eqn:Hready; simpl; [|done].
  by destruct (bool_decide _).
Qed.

Lemma set_installed_apps_unfold installed self :
  ready self = true ->
  set_installed_apps create installed self =
  populate create (Some installed)
    (with_get_models_cache ∅
       (with_ready false
          (with_app_configs OrderedDict.empty
             (with_stored_app_configs
                (app_configs self :: stored_app_configs self) self)))).
Proof.
  intros Hready.
  unfold set_installed_apps, check_ready, push_app_configs, clear_cache.
  run_monad. by rewrite Hready.
Qed.

Lemma load_app_config_cases e self :
  load_app_config create e self =
  match resolve create e with
  | inl message => (Raise (Fault message), self)
  | inr app_config =>
      (Ok tt,
       with_app_configs
         (OrderedDict.set (AppConfig.label app_config) app_config
            (app_configs self)) self)
  end.
Proof.
  unfold load_app_config. run_monad.
  destruct e as [app_config|dotted]; simpl; [done|].
  by destruct (create dotted).
Qed.

(** The applications that [populate] leaves: the ones it found, or the ones
    of its first loop. *)
Lemma populate_app_configs installed_apps self :
  app_configs (populate create installed_apps self).2 = app_configs self
  \/ exists installed,
       installed_apps = Some installed
       /\ ready self = false
       /\ app_configs self = []
       /\ app_configs (populate create installed_apps self).2
          = app_configs (for_each (load_app_config create) installed self).2.
Proof.
  destruct (ready self) eqn:Hready.
  { left. by rewrite populate_when_ready. }
  destruct (app_configs self) as [|item configs] eqn:Hconfigs.
  2: { left. rewrite populate_not_reentrant by (done || by rewrite Hconfigs).
       done. }
  destruct installed_apps as [installed|].
  2: { left. unfold populate. run_monad. do 2 (rewrite Hready; simpl).
       by rewrite Hconfigs. }
  right. exists installed. do 3 (split; [done|]).
  rewrite populate_fresh by done.
  destruct (for_each (load_app_config create) installed self)
    as [[[]|e] self1]; [|done].
  pose proof (for_each_imports load_models
                (OrderedDict.values (app_configs self1)) self1
                load_models_imports) as ((Hcfg & _ & _) & _).
  destruct (for_each load_models (OrderedDict.values (app_configs self1)) self1)
    as [[[]|e] self2]; simpl in *; [|done].
  destruct (for_each_setup_reads_only (OrderedDict.values (app_configs self2))
              (with_ready true (with_get_models_cache ∅ self2)))
    as ((_ & Hcfg3 & _) & _).
  by rewrite Hcfg3.
Qed.

Lemma for_each_load_app_config_wf installed self :
  dict_wf (app_configs self) ->
  dict_wf (app_configs (for_each (load_app_config create) installed self).2).
Proof.
  apply (for_each_invariant (fun s => dict_wf (app_configs s))).
  intros e s Hwf. rewrite load_app_config_cases.
  destruct (resolve create e); [done|]. by apply dict_wf_set.
Qed.

Lemma populate_wf installed_apps self :
  registry_wf self -> registry_wf (populate create installed_apps self).2.
Proof.
  intros [Hcur Hstack].
  destruct (populate_keeps_models create installed_apps self)
    as (_ & _ & Hsame).
  split; [|by rewrite Hsame].
  destruct (populate_app_configs installed_apps self)
    as [->|(installed & _ & _ & _ & ->)]; [done|].
  by apply for_each_load_app_config_wf.
Qed.

(** A call that alters nothing keeps the applications, the stack and the
    flag, and every list of models that [all_models] gives. *)
Lemma invoke_reads c self :
  alters c = false ->
  let self' := (invoke create c self).2 in
  same_view self self'
  /\ stored_app_configs self' = stored_app_configs self.
Proof.
  assert (Hrefl : same_view self self
                  /\ stored_app_configs self = stored_app_configs self)
    by by repeat split.
  destruct c; simpl; try done; intros _; rewrite ?discard_state.
  - by rewrite get_app_configs_unchanged.
  - by rewrite get_app_config_unchanged.
  - destruct (get_models_effect app_mod include_auto_created include_deferred
                include_swapped self) as (Hstore & Hcfg & Hstack & Hready & _).
    repeat split; try done. intros app_label. by rewrite Hstore.
  - by rewrite get_model_unchanged.
  - by rewrite has_app_total.
  - rewrite get_registered_model_effect. unfold all_models_getitem.
    destruct (all_models self !! app_label) as [app_models|] eqn:Hsub;
      simpl; [done|].
    repeat split. intros app_label'. simpl.
    destruct (decide (app_label = app_label')) as [<-|Hne].
    + by rewrite lookup_insert_eq, Hsub.
    + by rewrite lookup_insert_ne.
Qed.

Lemma invoke_wf c self : registry_wf self -> registry_wf (invoke create c self).2.
Proof.
  intros Hwf.
  destruct (alters c) eqn:Halters.
  2: { destruct (invoke_reads c self Halters) as ((_ & Hcfg & _) & Hstack).
       destruct Hwf as [Hcur Hstk]. split; [by rewrite Hcfg|by rewrite Hstack]. }
  destruct Hwf as [Hcur Hstk].
  destruct c; simpl in *; try done.
  - by apply populate_wf.
  - destruct (register_model_same_apps app_label model self) as (Hcfg & Hstack & _).
    split; [by rewrite Hcfg|by rewrite Hstack].
  - rewrite set_available_apps_cases.
    destruct (ready self); [|done].
    destruct (bool_decide _); [|done].
    split; simpl; [|by constructor].
    rewrite od_of_items_NoDup.
    + by apply dict_wf_filter.
    + by apply od_keys_filter_NoDup, Hcur.
  - pose proof (unset_available_apps_cases self) as H.
    destruct (stored_app_configs self) as [|top rest] eqn:Hs; rewrite H;
      [simpl; split; [done|by rewrite Hs]|].
    apply Forall_cons in Hstk as [Htop Hrest]. by split.
  - destruct (ready self) eqn:Hready.
    + rewrite set_installed_apps_unfold by done. apply populate_wf.
      split; simpl; [apply dict_wf_empty|by constructor].
    + by rewrite set_installed_apps_not_ready.
  - pose proof (unset_installed_apps_cases self) as H.
    destruct (stored_app_configs self) as [|top rest] eqn:Hs; rewrite H;
      [simpl; split; [done|by rewrite Hs]|].
    apply Forall_cons in Hstk as [Htop Hrest]. by split.
Qed.

End ChangeFacts.

Lemma after_wf create calls self :
  registry_wf self -> registry_wf (after create calls self).
Proof.
  revert self. induction calls as [|c calls IH]; intros self Hwf; simpl; [done|].
  by apply IH, invoke_wf.
Qed.

(** X1: whatever calls the registry receives, in every set of applications
    it holds (the current one and the saved ones) no label occurs twice and
    every application is stored under its own label. *)
Theorem registry_wf_invariant create calls self :
  registry_wf self -> registry_wf (after create calls self).
Proof. apply after_wf. Qed.

Lemma init_wf : registry_wf init.
Proof. split; [apply dict_wf_empty|constructor]. Qed.

Lemma registry_wf_invariant_witness :
  registry_wf
    (after Demo.create
       [Populate (Some [Path "pkg.A"; Instance Demo.A2; Path "pkg.B"]);
        SetAvailableApps ["pkg.B"]; SetInstalledApps [Instance Demo.Shop];
        UnsetInstalledApps] init).
Proof. apply (registry_wf_invariant Demo.create _ init), init_wf. Defined.

(** ** The table of [get_models] is never stale *)

Section CacheFacts.

Variable create : string -> string + AppConfig.t.

Lemma cache_sound_empty self : get_models_cache self = ∅ -> cache_sound self.
Proof.
  intros Hempty. split; [done|].
  intros key models. by rewrite Hempty, lookup_empty.
Qed.

(** The body of [get_models] reads the flag, the applications and the
    lists of models of their labels, nothing else. *)
Lemma computed_same_view self self' key :
  same_view self self' -> computed self' key = computed self key.
Proof.
  intros (Hready & Hcfg & Hmodels). destruct key as [[[app_mod a] d] s].
  unfold computed, get_models_uncached, except_LookupError, get_app_config,
    models_of, check_ready. run_monad.
  destruct (ready self) eqn:Hr; rewrite Hready; simpl; [|done].
  destruct app_mod as [module_name|].
  - destruct (PyStr.index_minus_2 _) as [app_label|]; [|done].
    rewrite Hready, Hr; simpl. rewrite Hcfg.
    destruct (OrderedDict.get app_label (app_configs self)); simpl; [|done].
    by rewrite Hmodels.
  - rewrite Hcfg. simpl. apply (f_equal Ok), flat_map_ext. intros app_config.
    by rewrite Hmodels.
Qed.

Lemma computed_not_ready self key :
  ready self = false -> computed self key = Raise RuntimeError_not_ready.
Proof.
  intros Hready. destruct key as [[[app_mod a] d] s].
  unfold computed, get_models_uncached, check_ready. run_monad.
  by rewrite Hready.
Qed.

(** The three ways a call of [get_models] goes. *)
Lemma get_models_cases app_mod a d s self :
  match get_models_cache self !! (app_mod, a, d, s) with
  | Some models => get_models app_mod a d s self = (Ok models, self)
  | None =>
      match computed self (app_mod, a, d, s) with
      | Ok models =>
          get_models app_mod a d s self =
          (Ok models,
           with_get_models_cache
             (<[(app_mod, a, d, s) := models]> (get_models_cache self)) self)
      | Raise e => get_models app_mod a d s self = (Raise e, self)
      end
  end.
Proof.
  unfold get_models, computed; cbv zeta. simpl.
  destruct (get_models_cache self !! (app_mod, a, d, s)); [done|].
  pose proof (get_models_uncached_unchanged app_mod a d s self) as Hsame.
  destruct (get_models_uncached app_mod a d s self) as [[models|e] self1];
    simpl in *; by subst self1.
Qed.

Lemma get_models_cache_sound app_mod a d s self :
  cache_sound self -> cache_sound (get_models app_mod a d s self).2.
Proof.
  intros [Hidle Hsound].
  pose proof (get_models_cases app_mod a d s self) as Hcases.
  destruct (get_models_cache self !! (app_mod, a, d, s)) as [cached|] eqn:Hhit;
    [by rewrite Hcases|].
  destruct (computed self (app_mod, a, d, s)) as [models|e] eqn:Hbody;
    rewrite Hcases; [|done].
  split; simpl.
  - intros Hready. by rewrite computed_not_ready in Hbody.
  - intros key cached.
    rewrite (computed_same_view self) by by repeat split.
    destruct (decide ((app_mod, a, d, s) = key)) as [<-|Hne].
    + rewrite lookup_insert_eq. by intros [= <-].
    + rewrite lookup_insert_ne by done. apply Hsound.
Qed.

Lemma cache_sound_same_view self self' :
  same_view self self' ->
  get_models_cache self' = get_models_cache self ->
  cache_sound self -> cache_sound self'.
Proof.
  intros Hview Hcache [Hidle Hsound]. split.
  - rewrite Hcache. destruct Hview as (-> & _). apply Hidle.
  - intros key models. rewrite Hcache, (computed_same_view self) by done.
    apply Hsound.
Qed.

(** What a call of a hook does to the table: [get_models] may add the
    result for its arguments, the other calls leave the table alone. *)
Lemma perform_cache r self :
  (cache_sound self -> cache_sound (perform r self).2)
  /\ forall app_mod a d s,
       is_Some (get_models_cache (perform r self).2 !! (app_mod, a, d, s)) ->
       is_Some (get_models_cache self !! (app_mod, a, d, s))
       \/ r = ReadModels app_mod a d s.
Proof.
  destruct r; simpl.
  - rewrite get_app_configs_unchanged. split; [done|by left].
  - rewrite get_app_config_unchanged. split; [done|by left].
  - split; [apply get_models_cache_sound|].
    intros app_mod' a d s.
    pose proof (get_models_cases app_mod include_auto_created include_deferred
                  include_swapped self) as Hcases.
    destruct (get_models_cache self
                !! (app_mod, include_auto_created, include_deferred,
                    include_swapped)) as [cached|]; [rewrite Hcases; by left|].
    destruct (computed self _) as [models|e]; rewrite Hcases; [|by left].
    simpl.
    destruct (decide ((app_mod, include_auto_created, include_deferred,
                       include_swapped) = (app_mod', a, d, s))) as [Heq|Hne].
    + right. by injection Heq as -> -> -> ->.
    + rewrite lookup_insert_ne by done. by left.
  - rewrite get_model_unchanged. split; [done|by left].
  - rewrite has_app_unchanged. split; [done|by left].
  - rewrite get_registered_model_effect.
    destruct (all_models_getitem_reads_only app_label self) as [[Hview _] Hcache].
    split; [by apply cache_sound_same_view|].
    intros app_mod a d s. rewrite Hcache. by left.
Qed.

Lemma for_each_perform_cache reads self :
  (cache_sound self -> cache_sound (for_each perform reads self).2)
  /\ forall app_mod a d s,
       is_Some (get_models_cache (for_each perform reads self).2
                  !! (app_mod, a, d, s)) ->
       is_Some (get_models_cache self !! (app_mod, a, d, s))
       \/ ReadModels app_mod a d s ∈ reads.
Proof.
  revert self. induction reads as [|r reads IH]; intros self; simpl.
  - split; [done|by left].
  - unfold bind. destruct (perform_reads_only r self) as [-> _].
    destruct (perform_cache r self) as [Hsound Hkeys].
    destruct (IH (perform r self).2) as [Hsound' Hkeys'].
    split; [auto|].
    intros app_mod a d s Hin.
    destruct (Hkeys' _ _ _ _ Hin) as [Hin'|Hin'].
    + destruct (Hkeys _ _ _ _ Hin') as [?| ->]; [by left|right].
      apply list_elem_of_here.
    + right. by apply list_elem_of_further.
Qed.

Lemma for_each_setup_cache configs self :
  (cache_sound self -> cache_sound (for_each setup configs self).2)
  /\ forall app_mod a d s,
       is_Some (get_models_cache (for_each setup configs self).2
                  !! (app_mod, a, d, s)) ->
       is_Some (get_models_cache self !! (app_mod, a, d, s))
       \/ exists app_config,
            app_config ∈ configs
            /\ ReadModels app_mod a d s ∈ AppConfig.setup_reads app_config.
Proof.
  revert self. induction configs as [|c configs IH]; intros self; simpl.
  - split; [done|by left].
  - unfold bind. rewrite setup_cases.
    destruct (for_each_perform_cache (AppConfig.setup_reads c) self)
      as [Hsound Hkeys].
    set (self1 := (for_each perform (AppConfig.setup_reads c) self).2) in *.
    destruct (IH self1) as [Hsound' Hkeys'].
    assert (Hhere : forall app_mod a d s,
               is_Some (get_models_cache self1 !! (app_mod, a, d, s)) ->
               is_Some (get_models_cache self !! (app_mod, a, d, s))
               \/ exists app_config,
                    app_config ∈ c :: configs
                    /\ ReadModels app_mod a d s
                         ∈ AppConfig.setup_reads app_config).
    { intros app_mod a d s Hin. destruct (Hkeys _ _ _ _ Hin) as [?|?];
        [by left|right]. exists c. split; [apply list_elem_of_here|done]. }
    destruct (AppConfig.setup c); simpl; [by split|].
    split; [auto|].
    intros app_mod a d s Hin.
    destruct (Hkeys' _ _ _ _ Hin) as [Hin'|(c' & Hc' & Hread)]; [by apply Hhere|].
    right. exists c'. split; [by apply list_elem_of_further|done].
Qed.

(** [populate] on a registry that is not ready and has no application:
    when the table was empty or [populate] returns, the table it leaves
    holds only results of calls of [get_models] that the hooks of the
    installed applications made, and each is what the body of [get_models]
    computes on the registry that [populate] leaves. *)
Lemma populate_fresh_cache installed self :
  ready self = false ->
  app_configs self = [] ->
  get_models_cache self = ∅
  \/ (populate create (Some installed) self).1 = Ok tt ->
  cache_sound (populate create (Some installed) self).2
  /\ forall app_mod a d s,
       is_Some (get_models_cache (populate create (Some installed) self).2
                  !! (app_mod, a, d, s)) ->
       exists app_config,
         app_config
           ∈ OrderedDict.values
               (app_configs (populate create (Some installed) self).2)
         /\ ReadModels app_mod a d s ∈ AppConfig.setup_reads app_config.
Proof.
  intros Hready Hempty. rewrite populate_fresh by done.
  assert (Hnone : forall s : Apps,
             get_models_cache s = ∅ ->
             cache_sound s
             /\ forall app_mod a d sw,
                  is_Some (get_models_cache s !! (app_mod, a, d, sw)) ->
                  exists app_config,
                    app_config ∈ OrderedDict.values (app_configs s)
                    /\ ReadModels app_mod a d sw
                         ∈ AppConfig.setup_reads app_config).
  { intros s Hs. split; [by apply cache_sound_empty|].
    intros app_mod a d sw. rewrite Hs, lookup_empty. by intros [? ?]. }
  pose proof (for_each_load_app_config_same_store create installed self)
    as (_ & _ & _ & Hcache1).
  destruct (for_each (load_app_config create) installed self)
    as [[[]|e] self1]; simpl in *.
  2: { intros [Hcache|?]; [|done]. apply Hnone. congruence. }
  pose proof (for_each_imports load_models
                (OrderedDict.values (app_configs self1)) self1
                load_models_imports) as (_ & _ & _ & Hcache2).
  destruct (for_each load_models (OrderedDict.values (app_configs self1)) self1)
    as [[[]|e] self2]; simpl in *.
  2: { intros [Hcache|?]; [|done]. apply Hnone, Hcache2. congruence. }
  intros _.
  destruct (for_each_setup_cache (OrderedDict.values (app_configs self2))
              (with_ready true (with_get_models_cache ∅ self2)))
    as [Hsound Hkeys].
  destruct (for_each_setup_reads_only (OrderedDict.values (app_configs self2))
              (with_ready true (with_get_models_cache ∅ self2)))
    as ((_ & Hcfg & _) & _).
  split; [by apply Hsound, cache_sound_empty|].
  intros app_mod a d s Hin. rewrite Hcfg. simpl.
  destruct (Hkeys _ _ _ _ Hin) as [Hin'|?]; [|done].
  simpl in Hin'. rewrite lookup_empty in Hin'. by destruct Hin'.
Qed.

Lemma populate_cache_sound installed_apps self :
  cache_sound self -> cache_sound (populate create installed_apps self).2.
Proof.
  intros Hsound.
  destruct (ready self) eqn:Hready.
  { by rewrite populate_when_ready. }
  destruct (app_configs self) as [|item configs] eqn:Hconfigs.
  2: { by rewrite populate_not_reentrant by (done || by rewrite Hconfigs). }
  destruct installed_apps as [installed|].
  2: { unfold populate. run_monad. do 2 (rewrite Hready; simpl).
       by rewrite Hconfigs. }
  apply populate_fresh_cache; [done|done|]. left. by apply Hsound.
Qed.

Lemma set_installed_apps_cache installed self :
  ready self = true ->
  cache_sound (set_installed_apps create installed self).2
  /\ forall app_mod a d s,
       is_Some (get_models_cache (set_installed_apps create installed self).2
                  !! (app_mod, a, d, s)) ->
       exists app_config,
         app_config
           ∈ OrderedDict.values
               (app_configs (set_installed_apps create installed self).2)
         /\ ReadModels app_mod a d s ∈ AppConfig.setup_reads app_config.
Proof.
  intros Hready. rewrite set_installed_apps_unfold by done.
  apply populate_fresh_cache; [done|done|by left].
Qed.

(** A call that alters the registry without running a hook leaves it as it
    was or empties the table. *)
Lemma invoke_alters_cache c self :
  alters c = true ->
  (forall installed_apps, c <> Populate installed_apps) ->
  (forall installed, c <> SetInstalledApps installed) ->
  (invoke create c self).2 = self
  \/ get_models_cache (invoke create c self).2 = ∅.
Proof.
  intros Halters Hpop Hset. destruct c; simpl in *; try done.
  - by destruct (Hpop installed_apps).
  - destruct (register_model_cases app_label model self)
      as [[_ ->]|(existing & _ & ->)]; [by right|by left].
  - rewrite set_available_apps_cases.
    destruct (ready self); [|by left].
    destruct (bool_decide _); [by right|by left].
  - pose proof (unset_available_apps_cases self) as H.
    destruct (stored_app_configs self); rewrite H; [by left|by right].
  - by destruct (Hset installed).
  - pose proof (unset_installed_apps_cases self) as H.
    destruct (stored_app_configs self); rewrite H; [by left|by right].
Qed.

Lemma invoke_cache_sound c self :
  cache_sound self -> cache_sound (invoke create c self).2.
Proof.
  intros Hsound.
  destruct c; simpl; rewrite ?discard_state.
  - by apply populate_cache_sound.
  - by rewrite get_app_configs_unchanged.
  - by rewrite get_app_config_unchanged.
  - by apply get_models_cache_sound.
  - by rewrite get_model_unchanged.
  - destruct (invoke_alters_cache (RegisterModel app_label model) self)
      as [Hsame|Hempty]; try done; simpl in *;
      [by rewrite Hsame|by apply cache_sound_empty].
  - by rewrite has_app_total.
  - rewrite get_registered_model_effect.
    destruct (all_models_getitem_reads_only app_label self) as [[Hview _] Hcache].
    by apply (cache_sound_same_view self).
  - destruct (invoke_alters_cache (SetAvailableApps available) self)
      as [Hsame|Hempty]; try done; simpl in *;
      [by rewrite Hsame|by apply cache_sound_empty].
  - destruct (invoke_alters_cache UnsetAvailableApps self)
      as [Hsame|Hempty]; try done; simpl in *;
      [by rewrite Hsame|by apply cache_sound_empty].
  - destruct (ready self) eqn:Hready.
    + by apply set_installed_apps_cache.
    + by rewrite set_installed_apps_not_ready.
  - destruct (invoke_alters_cache UnsetInstalledApps self)
      as [Hsame|Hempty]; try done; simpl in *;
      [by rewrite Hsame|by apply cache_sound_empty].
Qed.

Lemma after_cache_sound calls self :
  cache_sound self -> cache_sound (after create calls self).
Proof.
  revert self. induction calls as [|c calls IH]; intros self Hsound; simpl;
    [done|].
  by apply IH, invoke_cache_sound.
Qed.

End CacheFacts.

(** ** The cache of [get_models] *)

(** C7 (as amended): a call that alters the registry clears the table of
    [get_models] once its change is made. After [register_model],
    [set_available_apps], [unset_available_apps] and
    [unset_installed_apps] have returned, the table is empty. [populate]
    clears it before it sets the flag and runs the hooks, and so does
    [set_installed_apps], which ends in [populate]: when [populate]
    returns on a registry that was not ready, and whatever
    [set_installed_apps] does on a ready one, the table holds only results
    that the hooks of the installed applications asked [get_models] for,
    each being what the body of [get_models] computes on the registry as it
    is left. And when [get_models] has returned a list, the same arguments
    get the same list again, and change nothing, after any calls that alter
    nothing. *)
Theorem cache_cleared_and_memoized create :
  (forall c self self',
     alters c = true ->
     (forall installed_apps, c <> Populate installed_apps) ->
     (forall installed, c <> SetInstalledApps installed) ->
     invoke create c self = (Ok tt, self') ->
     get_models_cache self' = ∅)
  /\ (forall installed_apps self self',
        ready self = false ->
        populate create installed_apps self = (Ok tt, self') ->
        cache_sound self'
        /\ forall app_mod a d s,
             is_Some (get_models_cache self' !! (app_mod, a, d, s)) ->
             exists app_config,
               app_config ∈ OrderedDict.values (app_configs self')
               /\ ReadModels app_mod a d s ∈ AppConfig.setup_reads app_config)
  /\ (forall installed self,
        ready self = true ->
        cache_sound (set_installed_apps create installed self).2
        /\ forall app_mod a d s,
             is_Some (get_models_cache
                        (set_installed_apps create installed self).2
                        !! (app_mod, a, d, s)) ->
             exists app_config,
               app_config
                 ∈ OrderedDict.values
                     (app_configs (set_installed_apps create installed self).2)
               /\ ReadModels app_mod a d s ∈ AppConfig.setup_reads app_config)
  /\ (forall app_mod a d s models calls self self1,
        get_models app_mod a d s self = (Ok models, self1) ->
        Forall (fun c => alters c = false) calls ->
        get_models app_mod a d s (after create calls self1)
        = (Ok models, after create calls self1)).
Proof.
  split; [|split; [|split]].
  - intros c self self' Halters Hpop Hset Hok.
    destruct c; simpl in *; try done.
    + by destruct (Hpop installed_apps).
    + destruct (register_model_cases app_label model self)
        as [[_ Hnew]|(existing & _ & Hold)]; [|congruence].
      rewrite Hnew in Hok. by injection Hok as <-.
    + by eapply set_available_apps_ok.
    + pose proof (unset_available_apps_cases self) as H.
      destruct (stored_app_configs self); rewrite H in Hok; [done|].
      by injection Hok as <-.
    + by destruct (Hset installed).
    + pose proof (unset_installed_apps_cases self) as H.
      destruct (stored_app_configs self); rewrite H in Hok; [done|].
      by injection Hok as <-.
  - intros installed_apps self self' Hready Hok.
    destruct (app_configs self) as [|item configs] eqn:Hconfigs.
    2: { by rewrite populate_not_reentrant in Hok
           by (done || by rewrite Hconfigs). }
    destruct installed_apps as [installed|].
    2: { unfold populate in Hok. run_monad.
         do 2 (rewrite Hready in Hok; simpl in Hok).
         by rewrite Hconfigs in Hok. }
    pose proof (populate_fresh_cache create installed self Hready Hconfigs)
      as Hfresh.
    rewrite Hok in Hfresh. apply Hfresh. by right.
  - intros installed self Hready. by apply set_installed_apps_cache.
  - intros app_mod a d s models calls self self1 Hcall Hcalls.
    apply get_models_cached, after_keeps_cache; [done|].
    by eapply get_models_stores.
Qed.

Lemma cache_cleared_and_memoized_witness :
  let self1 := (get_models None false false false demo_ready).2 in
  get_models_cache self1 <> ∅
  /\ get_models_cache (register_model "A" Demo.Widget self1).2 = ∅
  /\ cache_sound
       (populate Demo.create
          (Some [Path "pkg.A"; Instance Demo2.Reader]) init).2
  /\ cache_sound (set_installed_apps Demo.create [Path "pkg.B"] self1).2
  /\ get_models None false false false
       (after Demo.create [GetModels None true true true; HasApp "pkg.A";
                           GetRegisteredModel "C" "x"] self1)
     = (Ok [Demo.Gadget; Demo.Widget],
        after Demo.create [GetModels None true true true; HasApp "pkg.A";
                           GetRegisteredModel "C" "x"] self1).
Proof.
  intros self1.
  destruct (cache_cleared_and_memoized Demo.create)
    as (Hclear & Hpop & Hset & Hmemo).
  split; [by vm_compute|]. split; [|split; [|split]].
  - apply (Hclear (RegisterModel "A" Demo.Widget) self1); [done|done|done|].
    vm_compute. reflexivity.
  - apply (Hpop (Some [Path "pkg.A"; Instance Demo2.Reader]) init);
      [reflexivity|vm_compute; reflexivity].
  - apply Hset. reflexivity.
  - apply (Hmemo None false false false [Demo.Gadget; Demo.Widget] _ demo_ready).
    + vm_compute. reflexivity.
    + repeat constructor.
Defined.

(** C7 fails as stated: the hook of [Reader] asks for the models. It runs
    after [populate] has cleared the table, so when [populate] returns,
    and when [set_installed_apps] returns, the table is not empty: it
    holds the list that the hook was given. *)
Lemma cache_not_empty_after_hooks_counterexample :
  let populated :=
    populate Demo.create (Some [Path "pkg.A"; Instance Demo2.Reader]) init in
  let replaced :=
    set_installed_apps Demo.create [Instance Demo2.Reader; Path "pkg.B"]
      demo_A in
  populated.1 = Ok tt
  /\ get_models_cache populated.2 !! (None, false, false, false)
     = Some [Demo.Gadget]
  /\ get_models_cache populated.2 <> ∅
  /\ replaced.1 = Ok tt
  /\ get_models_cache replaced.2 !! (None, false, false, false)
     = Some [Demo.Widget]
  /\ get_models_cache replaced.2 <> ∅.
Proof. repeat split; by vm_compute. Qed.

(** X2: the table of [get_models] is never stale. Starting from a registry
    whose table is sound (an empty one, for instance) and after any calls,
    what [get_models] returns is what its body computes on the registry as
    it is at the time of the call, cached or not. *)
Theorem get_models_never_stale create calls self app_mod a d s models self' :
  cache_sound self ->
  get_models app_mod a d s (after create calls self) = (Ok models, self') ->
  (get_models_uncached app_mod a d s (after create calls self)).1 = Ok models.
Proof.
  intros Hsound Hcall.
  apply (after_cache_sound create calls) in Hsound as [_ Hsound].
  pose proof (get_models_cases app_mod a d s (after create calls self)) as Hcases.
  destruct (get_models_cache (after create calls self) !! (app_mod, a, d, s))
    as [cached|] eqn:Hhit.
  - rewrite Hcases in Hcall. injection Hcall as <- _.
    apply (Hsound _ _ Hhit).
  - change (computed (after create calls self) (app_mod, a, d, s) = Ok models).
    destruct (computed (after create calls self) (app_mod, a, d, s));
      rewrite Hcases in Hcall; congruence.
Qed.

Lemma get_models_never_stale_witness :
  let calls :=
    [Populate (Some [Path "pkg.A"]); GetModels None false false false;
     RegisterModel "A" Demo.Widget; GetRegisteredModel "ghost" "x";
     GetModels None false false false] in
  (get_models None false false false (after Demo.create calls init)).1
  = Ok [Demo.Gadget; Demo.Widget]
  /\ (get_models_uncached None false false false
        (after Demo.create calls init)).1
     = Ok [Demo.Gadget; Demo.Widget].
Proof.
  intros calls. split; [vm_compute; reflexivity|].
  apply (get_models_never_stale Demo.create calls init None false false false
           [Demo.Gadget; Demo.Widget]
           (get_models None false false false (after Demo.create calls init)).2).
  - by apply cache_sound_empty.
  - vm_compute. reflexivity.
Defined.

(** X3: while the registry is not ready, every method that starts with
    [check_ready] raises the error of a registry that is not populated and
    changes nothing: [get_app_configs], [get_app_config], [get_models] (its
    table is then empty), [get_model], [set_available_apps] and
    [set_installed_apps]. *)
Theorem not_ready_refuses create c self :
  cache_sound self ->
  ready self = false ->
  needs_ready c = true ->
  invoke create c self = (Raise RuntimeError_not_ready, self).
Proof.
  intros [Hidle _] Hready Hneeds. destruct c; simpl in *; try done.
  - unfold discard, get_app_configs, check_ready. run_monad. by rewrite Hready.
  - unfold discard, get_app_config, check_ready. run_monad. by rewrite Hready.
  - pose proof (get_models_cases app_mod include_auto_created include_deferred
                  include_swapped self) as Hcases.
    rewrite (Hidle Hready), lookup_empty, computed_not_ready in Hcases by done.
    unfold discard, bind. by rewrite Hcases.
  - unfold discard, get_model, check_ready. run_monad. by rewrite Hready.
  - rewrite set_available_apps_cases. by rewrite Hready.
  - by apply set_installed_apps_not_ready.
Qed.

Lemma not_ready_refuses_witness :
  ready demo_failed = false
  /\ invoke Demo.create (GetModels None false false false) demo_failed
     = (Raise RuntimeError_not_ready, demo_failed)
  /\ invoke Demo.create (GetModel "A" "Gadget") demo_failed
     = (Raise RuntimeError_not_ready, demo_failed)
  /\ invoke Demo.create (SetAvailableApps []) demo_failed
     = (Raise RuntimeError_not_ready, demo_failed).
Proof.
  assert (Hsound : cache_sound demo_failed) by by apply cache_sound_empty.
  split; [reflexivity|].
  split; [|split]; by apply (not_ready_refuses Demo.create _ demo_failed).
Defined.

(** ** More on [populate] *)

Section PopulateMore.

Variable create : string -> string + AppConfig.t.

Lemma load_app_configs_fresh installed configs :
  Forall2 (fun e c => resolve create e = inr c) installed configs ->
  forall self,
    NoDup (OrderedDict.keys (app_configs self) ++ (AppConfig.label <$> configs))%list ->
    for_each (load_app_config create) installed self =
    (Ok tt, with_app_configs (app_configs self ++ labelled configs)%list self).
Proof.
  induction 1 as [|e c installed configs He _ IH]; intros self Hnd.
  - simpl. unfold labelled. simpl. rewrite app_nil_r. by destruct self.
  - simpl for_each. unfold bind. rewrite load_app_config_cases, He.
    rewrite fmap_cons in Hnd.
    rewrite od_set_fresh.
    2: { apply NoDup_app in Hnd as (_ & Hdisj & _). intros Hin.
         apply (Hdisj _ Hin), list_elem_of_here. }
    rewrite IH.
    + unfold with_app_configs, labelled; simpl. by rewrite <- app_assoc.
    + simpl. unfold OrderedDict.keys in *. rewrite fmap_app. simpl.
      by rewrite <- app_assoc.
Qed.

Lemma labelled_values configs : OrderedDict.values (labelled configs) = configs.
Proof.
  unfold OrderedDict.values, labelled. induction configs as [|c configs IH];
    [done|]. rewrite !fmap_cons. simpl. by rewrite IH.
Qed.

Lemma for_each_raise_inv {A} (body : A -> M unit) l self e self' :
  for_each body l self = (Raise e, self') ->
  exists x s, x ∈ l /\ body x s = (Raise e, self').
Proof.
  revert self. induction l as [|x l IH]; intros self; simpl; [done|].
  unfold bind. destruct (body x self) as [[[]|e0] self0] eqn:Hx.
  - intros H. destruct (IH _ H) as (y & s & Hy & Hbody).
    exists y, s. split; [by apply list_elem_of_further|done].
  - intros [= <- <-]. exists x, self. split; [apply list_elem_of_here|done].
Qed.

End PopulateMore.

(** X4: when the entries resolve to applications with pairwise distinct
    labels and [populate] returns, [get_app_configs] lists exactly these
    applications, in the order of the entries. *)
Theorem populate_keeps_order create installed configs self self' :
  ready self = false ->
  app_configs self = [] ->
  Forall2 (fun e c => resolve create e = inr c) installed configs ->
  NoDup (AppConfig.label <$> configs) ->
  populate create (Some installed) self = (Ok tt, self') ->
  get_app_configs self' = (Ok configs, self').
Proof.
  intros Hready Hempty Hres Hnd Hpop.
  pose proof (load_app_configs_fresh create installed configs Hres self) as Hloop.
  rewrite Hempty in Hloop. specialize (Hloop Hnd). simpl in Hloop.
  destruct (populate_fresh_outcome create installed self _ Hready Hempty Hloop)
    as [Hcfg _].
  pose proof (populate_completes create _ _ _ Hready Hpop) as Hready'.
  rewrite Hpop in Hcfg. simpl in Hcfg.
  unfold get_app_configs, check_ready. run_monad. rewrite Hready'; simpl.
  by rewrite Hcfg, labelled_values.
Qed.

Lemma populate_keeps_order_witness :
  get_app_configs demo_ready = (Ok [Demo.A; Demo.B], demo_ready)
  /\ get_app_configs
       (populate Demo.create (Some [Path "pkg.B"; Path "pkg.A"]) init).2
     = (Ok [Demo.B; Demo.A],
        (populate Demo.create (Some [Path "pkg.B"; Path "pkg.A"]) init).2).
Proof.
  split.
  - apply (populate_keeps_order Demo.create [Path "pkg.A"; Path "pkg.B"]
             [Demo.A; Demo.B] init demo_ready);
      [reflexivity|reflexivity|repeat constructor| |vm_compute; reflexivity].
    apply (bool_decide_unpack (NoDup _)). vm_compute. exact I.
  - apply (populate_keeps_order Demo.create [Path "pkg.B"; Path "pkg.A"]
             [Demo.B; Demo.A] init);
      [reflexivity|reflexivity|repeat constructor| |vm_compute; reflexivity].
    apply (bool_decide_unpack (NoDup _)). vm_compute. exact I.
Defined.

(** X5: when the models of every application are imported and a [setup]
    hook then faults, [populate] raises that fault, but the registry is
    left ready, with every application installed: a later [populate]
    returns at once and runs no hook again. The table of [get_models] then
    holds what the hooks that ran asked for, each result being what the
    body of [get_models] computes on the registry as it is left. The fault
    is the one of an installed application. *)
Theorem setup_fault_leaves_ready create installed self self1 self2 e self3 :
  ready self = false ->
  app_configs self = [] ->
  for_each (load_app_config create) installed self = (Ok tt, self1) ->
  for_each load_models (OrderedDict.values (app_configs self1)) self1
    = (Ok tt, self2) ->
  for_each setup (OrderedDict.values (app_configs self2))
    (with_ready true (with_get_models_cache ∅ self2)) = (Raise e, self3) ->
  populate create (Some installed) self = (Raise e, self3)
  /\ ready self3 = true
  /\ cache_sound self3
  /\ app_configs self3 = app_configs self1
  /\ (exists app_config message,
        app_config ∈ OrderedDict.values (app_configs self3)
        /\ AppConfig.setup app_config = Some message
        /\ e = Fault message)
  /\ forall again, populate create again self3 = (Ok tt, self3).
Proof.
  intros Hready Hempty Hloop1 Hloop2 Hloop3.
  pose proof (for_each_imports load_models
                (OrderedDict.values (app_configs self1)) self1
                load_models_imports) as ((Hcfg & _ & _) & _).
  rewrite Hloop2 in Hcfg. simpl in Hcfg.
  destruct (for_each_setup_reads_only (OrderedDict.values (app_configs self2))
              (with_ready true (with_get_models_cache ∅ self2)))
    as ((Hready3 & Hcfg3 & _) & _).
  destruct (for_each_setup_cache (OrderedDict.values (app_configs self2))
              (with_ready true (with_get_models_cache ∅ self2)))
    as [Hsound _].
  rewrite Hloop3 in Hready3, Hcfg3, Hsound. simpl in *.
  split; [by rewrite populate_fresh, Hloop1, Hloop2|].
  split; [done|]. split; [by apply Hsound, cache_sound_empty|].
  split; [congruence|]. split.
  - apply for_each_raise_inv in Hloop3 as (app_config & s & Hin & Hraise).
    rewrite setup_cases in Hraise.
    destruct (AppConfig.setup app_config) as [message|] eqn:Hsetup; [|done].
    injection Hraise as <- _. exists app_config, message.
    split; [by rewrite Hcfg3|done].
  - intros again. by apply populate_when_ready.
Qed.

Lemma setup_fault_leaves_ready_witness :
  let installed := [Path "pkg.A"; Instance Demo2.Reader; Instance Demo2.Hooked;
                    Path "pkg.B"] in
  let self3 := (populate Demo.create (Some installed) init).2 in
  populate Demo.create (Some installed) init = (Raise (Fault "SetupError"), self3)
  /\ ready self3 = true
  /\ cache_sound self3
  /\ get_models_cache self3 !! (None, false, false, false)
     = Some [Demo.Gadget; Demo.Widget]
  /\ forall again, populate Demo.create again self3 = (Ok tt, self3).
Proof.
  intros installed self3.
  destruct (setup_fault_leaves_ready Demo.create installed init
              (for_each (load_app_config Demo.create) installed init).2
              (for_each load_models
                 (OrderedDict.values
                    (app_configs
                       (for_each (load_app_config Demo.create) installed init).2))
                 (for_each (load_app_config Demo.create) installed init).2).2
              (Fault "SetupError") self3)
    as (Hpop & Hready & Hsound & _ & _ & Hagain);
    [reflexivity|reflexivity|vm_compute; reflexivity|vm_compute; reflexivity
    |vm_compute; reflexivity|].
  split; [done|]. split; [done|]. split; [done|].
  split; [vm_compute; reflexivity|done].
Defined.

(** X6: when an entry cannot be resolved, [populate] raises the fault of
    [AppConfig.create] for that entry and has imported no model: the
    RecordStore, the stack, the flag and the cache are the ones it found. *)
Theorem create_fault_imports_nothing create installed self e self' :
  ready self = false ->
  app_configs self = [] ->
  for_each (load_app_config create) installed self = (Raise e, self') ->
  populate create (Some installed) self = (Raise e, self')
  /\ all_models self' = all_models self
  /\ stored_app_configs self' = stored_app_configs self
  /\ ready self' = false
  /\ get_models_cache self' = get_models_cache self
  /\ exists dotted message,
       Path dotted ∈ installed /\ create dotted = inl message /\ e = Fault message.
Proof.
  intros Hready Hempty Hloop.
  pose proof (for_each_load_app_config_same_store create installed self)
    as (Hstore & Hstack & Hready' & Hcache).
  rewrite Hloop in Hstore, Hstack, Hready', Hcache. simpl in *.
  split; [by rewrite populate_fresh, Hloop|].
  do 2 (split; [done|]). split; [congruence|]. split; [done|].
  apply for_each_raise_inv in Hloop as (entry & s & Hin & Hraise).
  rewrite load_app_config_cases in Hraise.
  destruct entry as [app_config|dotted]; simpl in Hraise; [done|].
  destruct (create dotted) as [message|app_config] eqn:Hcreate; [|done].
  injection Hraise as <- _. by exists dotted, message.
Qed.

Lemma create_fault_imports_nothing_witness :
  let installed := [Path "pkg.A"; Path "pkg.missing"; Path "pkg.B"] in
  let self' := (populate Demo.create (Some installed) init).2 in
  populate Demo.create (Some installed) init = (Raise (Fault "pkg.missing"), self')
  /\ all_models self' = ∅
  /\ ready self' = false.
Proof.
  intros installed self'.
  destruct (create_fault_imports_nothing Demo.create installed init
              (Fault "pkg.missing") self')
    as (Hpop & Hstore & _ & Hready & _);
    [reflexivity|reflexivity|vm_compute; reflexivity|].
  by repeat split.
Defined.

(** ** Looking applications up *)

(** X7: in a ready registry, [get_app_config] returns an application
    exactly when it is one of the applications that [get_app_configs] lists
    and has the label asked for; when no listed application has this label
    it raises the [LookupError] that names the label. It never changes the
    registry. *)
Theorem get_app_config_agrees app_label self :
  ready self = true ->
  registry_wf self ->
  get_app_configs self = (Ok (OrderedDict.values (app_configs self)), self)
  /\ (forall app_config,
        get_app_config app_label self = (Ok app_config, self)
        <-> app_config ∈ OrderedDict.values (app_configs self)
            /\ AppConfig.label app_config = app_label)
  /\ ((forall app_config,
         app_config ∈ OrderedDict.values (app_configs self) ->
         AppConfig.label app_config <> app_label)
      <-> get_app_config app_label self
          = (Raise (LookupError_no_installed_app app_label), self)).
Proof.
  intros Hready [Hwf _].
  unfold get_app_configs, get_app_config, check_ready. run_monad.
  rewrite Hready; simpl. split; [done|].
  pose proof (dict_wf_get (app_configs self) app_label) as Hget.
  destruct (OrderedDict.get app_label (app_configs self)) as [found|] eqn:Hfound.
  - split.
    + intros app_config. rewrite <- (Hget app_config Hwf).
      split; [by intros [= ->]|by intros [= ->]].
    + split; [|done]. intros Hnone. exfalso.
      destruct (proj1 (Hget found Hwf) eq_refl) as [Hin Hlabel].
      by apply (Hnone found Hin).
  - split.
    + intros app_config. rewrite <- (Hget app_config Hwf). split; done.
    + split; [done|]. intros _ app_config Hin Hlabel.
      by pose proof (proj2 (Hget app_config Hwf) (conj Hin Hlabel)).
Qed.

Lemma demo_ready_wf : registry_wf demo_ready.
Proof.
  apply (after_wf Demo.create
           [Populate (Some [Path "pkg.A"; Path "pkg.B"])] init), init_wf.
Qed.

Lemma get_app_config_agrees_witness :
  get_app_config "B" demo_ready = (Ok Demo.B, demo_ready)
  /\ get_app_config "pkg.B" demo_ready
     = (Raise (LookupError_no_installed_app "pkg.B"), demo_ready).
Proof.
  split.
  - apply (get_app_config_agrees "B" demo_ready eq_refl demo_ready_wf).
    split; [|reflexivity]. apply list_elem_of_further, list_elem_of_here.
  - apply (get_app_config_agrees "pkg.B" demo_ready eq_refl demo_ready_wf).
    intros app_config Hin.
    apply elem_of_cons in Hin as [->|Hin]; [discriminate|].
    apply list_elem_of_singleton in Hin as ->. discriminate.
Defined.

(** ** Restricting the applications *)

Lemma elem_of_installed_names self name :
  name ∈ installed_names self <->
  exists app_config,
    app_config ∈ OrderedDict.values (app_configs self)
    /\ AppConfig.name app_config = name.
Proof.
  unfold installed_names. rewrite list_elem_of_fmap.
  split; intros (app_config & H1 & H2); exists app_config; by split.
Qed.

(** X8: when [set_available_apps] returns on a well-formed registry,
    [get_app_configs] lists the applications that were installed and whose
    name is among the available ones, in the order they had; the
    applications it found are on top of the stack, and the RecordStore is
    the one it found. *)
Theorem set_available_apps_restricts available self self' :
  registry_wf self ->
  set_available_apps available self = (Ok tt, self') ->
  get_app_configs self' =
    (Ok (List.filter (fun c => bool_decide (AppConfig.name c ∈ available))
           (OrderedDict.values (app_configs self))), self')
  /\ stored_app_configs self' = app_configs self :: stored_app_configs self
  /\ all_models self' = all_models self.
Proof.
  intros [[Hnd Hkeyed] _]. rewrite set_available_apps_cases. cbv zeta.
  destruct (ready self) eqn:Hready; [|done].
  destruct (bool_decide _); [|done].
  intros [= <-]. split; [|done].
  unfold get_app_configs, check_ready. run_monad. rewrite Hready; simpl.
  rewrite od_of_items_NoDup by by apply od_keys_filter_NoDup.
  erewrite od_values_filter; [done|].
  intros item. simpl. apply bool_decide_ext. by rewrite elem_of_list_to_set.
Qed.

Lemma set_available_apps_restricts_witness :
  let self' := (set_available_apps ["pkg.B"; "pkg.B"] demo_ready).2 in
  get_app_configs self' = (Ok [Demo.B], self')
  /\ stored_app_configs self' = [[("A", Demo.A); ("B", Demo.B)]].
Proof.
  intros self'.
  destruct (set_available_apps_restricts ["pkg.B"; "pkg.B"] demo_ready self'
              demo_ready_wf) as (Hlist & Hstack & _);
    [vm_compute; reflexivity|].
  split; [rewrite Hlist; reflexivity|rewrite Hstack; reflexivity].
Defined.

(** X9: on a ready registry, [set_available_apps] returns when every
    available name is the name of an installed application; when some name
    is not, it raises [ValueError] with exactly the names that are
    available but not installed, and leaves the registry as it found it. *)
Theorem set_available_apps_checks_names available self :
  ready self = true ->
  ((forall name, name ∈ available -> name ∈ installed_names self) ->
   (set_available_apps available self).1 = Ok tt)
  /\ (forall name,
        name ∈ available -> name ∉ installed_names self ->
        exists extra,
          set_available_apps available self
          = (Raise (ValueError_not_subset extra), self)
          /\ forall x, x ∈ extra <-> x ∈ available /\ x ∉ installed_names self).
Proof.
  intros Hready. rewrite set_available_apps_cases. cbv zeta. rewrite Hready.
  split.
  - intros Hall. rewrite bool_decide_eq_true_2; [done|].
    intros x. rewrite !elem_of_list_to_set. apply Hall.
  - intros name Hin Hout. rewrite bool_decide_eq_false_2.
    + eexists. split; [done|]. intros x.
      by rewrite elem_of_difference, !elem_of_list_to_set.
    + intros Hsub. apply Hout. specialize (Hsub name).
      rewrite !elem_of_list_to_set in Hsub. by apply Hsub.
Qed.

Lemma set_available_apps_checks_names_witness :
  (set_available_apps ["pkg.A"] demo_ready).1 = Ok tt
  /\ exists extra,
       set_available_apps ["pkg.A"; "pkg.C"] demo_ready
       = (Raise (ValueError_not_subset extra), demo_ready)
       /\ forall x,
            x ∈ extra <->
            x ∈ ["pkg.A"; "pkg.C"] /\ x ∉ installed_names demo_ready.
Proof.
  split.
  - apply (set_available_apps_checks_names ["pkg.A"] demo_ready eq_refl).
    intros name Hin. apply list_elem_of_singleton in Hin as ->.
    apply list_elem_of_here.
  - apply (proj2 (set_available_apps_checks_names ["pkg.A"; "pkg.C"]
                    demo_ready eq_refl) "pkg.C").
    + apply list_elem_of_further, list_elem_of_here.
    + intros Hin. apply elem_of_cons in Hin as [?|Hin]; [done|].
      by apply list_elem_of_singleton in Hin.
Defined.

(** ** Looking models up *)

(** X10: [get_model] is [get_registered_model] restricted to the installed
    applications of a ready registry: on a well-formed registry, a model
    that [get_model] returns is the model that [get_registered_model]
    returns for the same label and name, and neither call changes the
    registry. *)
Theorem get_model_is_registered app_label asked model self self' :
  registry_wf self ->
  get_model app_label asked self = (Ok model, self') ->
  self' = self
  /\ ready self = true
  /\ get_registered_model app_label asked self = (Ok model, self).
Proof.
  intros [Hwf _] Hcall.
  pose proof (get_model_unchanged app_label asked self) as Hsame.
  rewrite Hcall in Hsame. simpl in Hsame. subst self'.
  split; [done|].
  unfold get_model, get_app_config, check_ready, models_of in Hcall. run_monad.
  destruct (ready self) eqn:Hready; simpl in Hcall; [|done].
  rewrite Hready in Hcall; simpl in Hcall.
  destruct (OrderedDict.get app_label (app_configs self)) as [app_config|]
    eqn:Hget; simpl in Hcall; [|done].
  apply (dict_wf_get _ _ _ Hwf) in Hget as [_ Hlabel].
  unfold AppConfig.get_model in Hcall. rewrite lower_idempotent, Hlabel in Hcall.
  split; [done|]. apply get_registered_model_found. unfold registered.
  destruct (all_models self !! app_label) as [app_models|]; simpl in *.
  - destruct (OrderedDict.get (PyStr.lower asked) app_models); [|done].
    by injection Hcall as ->.
  - done.
Qed.

Lemma get_model_is_registered_witness :
  get_model "A" "GADGET" demo_ready = (Ok Demo.Gadget, demo_ready)
  /\ get_registered_model "A" "GADGET" demo_ready = (Ok Demo.Gadget, demo_ready).
Proof.
  split; [vm_compute; reflexivity|].
  apply (get_model_is_registered "A" "GADGET" Demo.Gadget demo_ready demo_ready
           demo_ready_wf).
  vm_compute. reflexivity.
Defined.

(** X11: on a well-formed registry whose installed applications all have
    the default label, the last part of their dotted name, [has_app]
    answers exactly whether an installed application has the name asked. *)
Theorem has_app_exact_for_default_labels app_name self :
  registry_wf self ->
  (forall app_config,
     app_config ∈ OrderedDict.values (app_configs self) ->
     AppConfig.label app_config
     = PyStr.rpartition_tail "." (AppConfig.name app_config)) ->
  has_app app_name self
  = (Ok (bool_decide (app_name ∈ installed_names self)), self).
Proof.
  intros [Hwf _] Hdefault. rewrite has_app_total. f_equal. f_equal.
  pose proof (dict_wf_get (app_configs self)
                (PyStr.rpartition_tail "." app_name)) as Hget.
  destruct (OrderedDict.get _ (app_configs self)) as [found|] eqn:Hfound.
  - destruct (proj1 (Hget found Hwf) eq_refl) as [Hin Hlabel].
    apply bool_decide_ext. rewrite elem_of_installed_names. split.
    + intros Hname. by exists found.
    + intros (app_config & Hin' & Hname).
      assert (Some found = Some app_config) as [= ->]; [|done].
      apply Hget; [done|].
      split; [done|]. by rewrite Hdefault, Hname.
  - symmetry. apply bool_decide_eq_false_2.
    rewrite elem_of_installed_names. intros (app_config & Hin & Hname).
    assert (None = Some app_config) as [=].
    apply Hget; [done|].
    split; [done|]. by rewrite Hdefault, Hname.
Qed.

Lemma has_app_exact_for_default_labels_witness :
  has_app "pkg.B" demo_ready = (Ok true, demo_ready)
  /\ has_app "other.B" demo_ready = (Ok false, demo_ready).
Proof.
  assert (Hdefault : forall app_config,
             app_config ∈ OrderedDict.values (app_configs demo_ready) ->
             AppConfig.label app_config
             = PyStr.rpartition_tail "." (AppConfig.name app_config)).
  { intros app_config Hin.
    apply elem_of_cons in Hin as [->|Hin]; [reflexivity|].
    apply list_elem_of_singleton in Hin as ->. reflexivity. }
  split.
  - rewrite (has_app_exact_for_default_labels "pkg.B" demo_ready
               demo_ready_wf Hdefault). reflexivity.
  - rewrite (has_app_exact_for_default_labels "other.B" demo_ready
               demo_ready_wf Hdefault). reflexivity.
Defined.

(** ** Dotted names *)

Lemma split_nonempty s : PyStr.split "." s <> [].
Proof.
  destruct s as [|c s]; simpl; [done|].
  destruct (Ascii.eqb c "."); [done|]. by destruct (PyStr.split "." s).
Qed.

Lemma split_no_dot s : has_dot s = false -> PyStr.split "." s = [s].
Proof.
  induction s as [|c s IH]; simpl; [done|].
  destruct (Ascii.eqb c "."); simpl; [done|].
  intros Hs. by rewrite IH.
Qed.

Lemma split_has_dot s : has_dot s = true -> 2 <= List.length (PyStr.split "." s).
Proof.
  induction s as [|c s IH]; simpl; [done|].
  destruct (Ascii.eqb c "."); simpl.
  - intros _. pose proof (split_nonempty s).
    destruct (PyStr.split "." s); [done|simpl; lia].
  - intros Hs. specialize (IH Hs).
    destruct (PyStr.split "." s); simpl in *; lia.
Qed.

Lemma index_minus_2_Some {A} (l : list A) :
  2 <= List.length l -> is_Some (PyStr.index_minus_2 l).
Proof.
  intros Hlen. unfold PyStr.index_minus_2. apply lookup_lt_is_Some.
  rewrite length_rev. lia.
Qed.

(** ** What [get_models] lists *)

Lemma get_models_returns_computed app_mod a d s self :
  cache_sound self ->
  match computed self (app_mod, a, d, s) with
  | Ok models => exists self', get_models app_mod a d s self = (Ok models, self')
  | Raise e => get_models app_mod a d s self = (Raise e, self)
  end.
Proof.
  intros [_ Hsound].
  pose proof (get_models_cases app_mod a d s self) as Hcases.
  destruct (get_models_cache self !! (app_mod, a, d, s)) as [cached|] eqn:Hhit.
  - rewrite (Hsound _ _ Hhit). by exists self.
  - destruct (computed self (app_mod, a, d, s)); [by eexists|done].
Qed.

Lemma computed_all_apps a d s self :
  ready self = true ->
  computed self (None, a, d, s) =
  Ok (List.flat_map
        (fun app_config =>
           AppConfig.get_models
             (default OrderedDict.empty
                (all_models self !! AppConfig.label app_config)) a d s)
        (OrderedDict.values (app_configs self))).
Proof.
  intros Hready. unfold computed, get_models_uncached, check_ready. run_monad.
  by rewrite Hready.
Qed.

Lemma computed_app_mod module_name a d s self :
  ready self = true ->
  computed self (Some module_name, a, d, s) =
  match PyStr.index_minus_2 (PyStr.split "." module_name) with
  | None => Raise IndexError
  | Some app_label =>
      match OrderedDict.get app_label (app_configs self) with
      | None => Ok []
      | Some app_config =>
          Ok (AppConfig.get_models
                (default OrderedDict.empty
                   (all_models self !! AppConfig.label app_config)) a d s)
      end
  end.
Proof.
  intros Hready.
  unfold computed, get_models_uncached, except_LookupError, get_app_config,
    models_of, check_ready. run_monad.
  rewrite Hready; simpl.
  destruct (PyStr.index_minus_2 _) as [app_label|]; [|done].
  rewrite Hready; simpl.
  by destruct (OrderedDict.get app_label (app_configs self)).
Qed.

Lemma elem_of_app_config_get_models model app_models a d s :
  model ∈ AppConfig.get_models app_models a d s <->
  model ∈ OrderedDict.values app_models
  /\ (deferred model = true -> d = true)
  /\ (meta_auto_created model = true -> a = true)
  /\ (meta_swapped model = true -> s = true).
Proof.
  unfold AppConfig.get_models.
  rewrite list_elem_of_In, filter_In, <- list_elem_of_In.
  destruct (deferred model), (meta_auto_created model), (meta_swapped model),
    a, d, s; simpl; intuition congruence.
Qed.

(** X12: on a ready registry whose table is sound, [get_models] without a
    module returns, and lists exactly the models stored under the labels
    of the installed applications, a deferred, auto-created or swapped
    model only when the matching flag asks for it. *)
Theorem get_models_lists_installed a d s self :
  cache_sound self ->
  ready self = true ->
  exists models self',
    get_models None a d s self = (Ok models, self')
    /\ forall model,
         model ∈ models <->
         exists app_config app_models,
           app_config ∈ OrderedDict.values (app_configs self)
           /\ all_models self !! AppConfig.label app_config = Some app_models
           /\ model ∈ OrderedDict.values app_models
           /\ (deferred model = true -> d = true)
           /\ (meta_auto_created model = true -> a = true)
           /\ (meta_swapped model = true -> s = true).
Proof.
  intros Hsound Hready.
  pose proof (get_models_returns_computed None a d s self Hsound) as Hcall.
  rewrite computed_all_apps in Hcall by done.
  destruct Hcall as [self' Hcall]. eexists _, self'. split; [exact Hcall|].
  intros model. rewrite list_elem_of_In, in_flat_map. split.
  - intros (app_config & Hin & Hmodel).
    apply list_elem_of_In in Hin, Hmodel.
    apply elem_of_app_config_get_models in Hmodel as (Hmodel & Hflags).
    destruct (all_models self !! AppConfig.label app_config) as [app_models|]
      eqn:Hsub; simpl in Hmodel; [|by apply elem_of_nil in Hmodel].
    by exists app_config, app_models.
  - intros (app_config & app_models & Hin & Hsub & Hmodel & Hflags).
    exists app_config. split; [by apply list_elem_of_In|].
    apply list_elem_of_In, elem_of_app_config_get_models. by rewrite Hsub.
Qed.

Lemma demo_ready_sound : cache_sound demo_ready.
Proof. by apply cache_sound_empty. Qed.

Lemma get_models_lists_installed_witness :
  exists models self',
    get_models None false false false demo_ready = (Ok models, self')
    /\ Demo.Widget ∈ models.
Proof.
  destruct (get_models_lists_installed false false false demo_ready
              demo_ready_sound eq_refl) as (models & self' & Hcall & Hlist).
  exists models, self'. split; [exact Hcall|].
  apply Hlist. exists Demo.B, [("widget", Demo.Widget)].
  split; [apply list_elem_of_further, list_elem_of_here|].
  split; [vm_compute; reflexivity|].
  split; [apply list_elem_of_here|done].
Defined.

(** X13: [get_models] with a module, on a ready registry whose table is
    sound. A module whose name has no dot makes it raise [IndexError] and
    change nothing. A module whose name has a dot never makes it raise: the
    part before the last one is taken as a label, and when no application
    is installed under it the result is the empty list. *)
Theorem get_models_of_module module_name a d s self :
  cache_sound self ->
  ready self = true ->
  (has_dot module_name = false ->
   get_models (Some module_name) a d s self = (Raise IndexError, self))
  /\ (has_dot module_name = true ->
      exists app_label models self',
        PyStr.index_minus_2 (PyStr.split "." module_name) = Some app_label
        /\ get_models (Some module_name) a d s self = (Ok models, self')
        /\ (OrderedDict.get app_label (app_configs self) = None -> models = [])).
Proof.
  intros Hsound Hready.
  pose proof (get_models_returns_computed (Some module_name) a d s self Hsound)
    as Hcall.
  rewrite computed_app_mod in Hcall by done. split.
  - intros Hdot. by rewrite split_no_dot in Hcall.
  - intros Hdot.
    destruct (index_minus_2_Some (PyStr.split "." module_name)
                (split_has_dot _ Hdot)) as [app_label Hlabel].
    rewrite Hlabel in Hcall. exists app_label.
    destruct (OrderedDict.get app_label (app_configs self)) as [app_config|];
      destruct Hcall as [self' Hcall]; eexists _, self';
      (split; [done|split; [exact Hcall|done]]).
Qed.

Lemma get_models_of_module_witness :
  get_models (Some "models") false false false demo_ready
  = (Raise IndexError, demo_ready)
  /\ (get_models (Some "pkg.B.models") false false false demo_ready).1
     = Ok [Demo.Widget]
  /\ (get_models (Some "pkg.C.models") false false false demo_ready).1 = Ok [].
Proof.
  split; [|split; vm_compute; reflexivity].
  by apply (get_models_of_module "models" false false false demo_ready
              demo_ready_sound eq_refl).
Defined.

(** ** Registering models *)

(** X14: a model that [register_model] has registered is returned by
    [get_registered_model], ready registry or not, for the same label and
    any spelling of the case of its name, after any later calls; the lookup
    changes nothing. *)
Theorem registered_model_found_later create app_label model asked calls self self1 :
  register_model app_label model self = (Ok tt, self1) ->
  PyStr.same_ignoring_case asked (meta_object_name model) ->
  get_registered_model app_label asked (after create calls self1)
  = (Ok model, after create calls self1).
Proof.
  intros Hreg Hcase. apply get_registered_model_found.
  apply (after_store_grows create calls).
  destruct (register_model_cases app_label model self)
    as [[_ Hok]|(existing & _ & Hko)]; [|congruence].
  rewrite Hok in Hreg. injection Hreg as <-.
  change (registered (with_get_models_cache ∅ ?s)) with (registered s).
  rewrite registered_after_insert. rewrite decide_True; [done|].
  split; [done|]. unfold model_name. by rewrite Hcase.
Qed.

Lemma registered_model_found_later_witness :
  let self1 := (register_model "C" Demo.Widget init).2 in
  let calls := [Populate (Some [Path "pkg.missing"]); UnsetInstalledApps] in
  ready (after Demo.create calls self1) = false
  /\ get_registered_model "C" "WIDGET" (after Demo.create calls self1)
     = (Ok Demo.Widget, after Demo.create calls self1).
Proof.
  intros self1 calls. split; [reflexivity|].
  apply (registered_model_found_later Demo.create "C" Demo.Widget "WIDGET"
           calls init self1); reflexivity.
Defined.

Lemma registered_other_name self app_label model name :
  name <> model_name model ->
  registered (register_model app_label model self).2 app_label name
  = registered self app_label name.
Proof.
  intros Hne.
  destruct (register_model_cases app_label model self)
    as [[_ ->]|(existing & _ & ->)]; [|done].
  simpl.
  change (registered (with_get_models_cache ∅ ?s)) with (registered s).
  rewrite registered_after_insert. rewrite decide_False; [done|].
  intros [_ Heq]. by apply Hne.
Qed.

(** X15: [register_models] registers its models one after the other under
    one label. It returns exactly when their lowercased names are pairwise
    distinct and none is registered under the label yet, and then every one
    of them is registered. *)
Theorem register_models_all_or_conflict app_label models self :
  ((register_models app_label models self).1 = Ok tt <->
   NoDup (model_name <$> models)
   /\ Forall (fun model =>
                registered self app_label (model_name model) = None) models)
  /\ ((register_models app_label models self).1 = Ok tt ->
      forall model,
        model ∈ models ->
        registered (register_models app_label models self).2 app_label
          (model_name model) = Some model).
Proof.
  unfold register_models. revert self.
  induction models as [|model models IH]; intros self.
  { split; [|by intros _ model H; apply elem_of_nil in H].
    split; [intros _; split; [apply NoDup_nil_2|constructor]|done]. }
  simpl for_each. unfold bind. rewrite fmap_cons, NoDup_cons, Forall_cons.
  destruct (register_model_cases app_label model self)
    as [[Hfresh Hok]|(existing & Htaken & Hko)].
  2: { rewrite Hko. simpl. split; [|done].
       split; [done|]. intros (_ & Hnone & _). congruence. }
  pose proof (registered_other_name self app_label model) as Hother.
  pose proof (register_model_keeps app_label model self) as Hkeep.
  assert (Hmine : registered (register_model app_label model self).2
                    app_label (model_name model) = Some model).
  { rewrite Hok. simpl.
    change (registered (with_get_models_cache ∅ ?s)) with (registered s).
    rewrite registered_after_insert. by rewrite decide_True. }
  rewrite Hok in Hother, Hkeep, Hmine. rewrite Hok. simpl in *.
  match goal with
  | |- context [for_each _ models ?s] => set (self1 := s) in *
  end.
  destruct (IH self1) as [Hiff Hall]. split.
  - rewrite Hiff. rewrite !Forall_forall. split.
    + intros [Hnd Hnone]. split; [split; [|done]|split; [done|]].
      * intros Hin. apply list_elem_of_fmap in Hin as (other & Heq & Hin).
        specialize (Hnone other Hin). simpl in Hnone.
        rewrite <- Heq in Hnone. congruence.
      * intros other Hin. specialize (Hnone other Hin). simpl in Hnone.
        destruct (decide (model_name other = model_name model)) as [Heq|Hne].
        -- rewrite Heq in Hnone. congruence.
        -- by rewrite Hother in Hnone.
    + intros [[Hnew Hnd] [_ Hnone]]. split; [done|].
      intros other Hin. rewrite Hother; [by apply Hnone|].
      intros Heq. apply Hnew. apply list_elem_of_fmap. by exists other.
  - intros Hrun other Hin. apply elem_of_cons in Hin as [->|Hin].
    + assert (Hgrow : store_grows self1
                        (for_each (register_model app_label) models self1).2).
      { apply (for_each_invariant (store_grows self1));
          [|apply store_grows_refl].
        intros x s Hs. eapply store_grows_trans; [exact Hs|].
        intros ????. by apply register_model_keeps. }
      by apply Hgrow.
    + by apply Hall.
Qed.

Lemma register_models_all_or_conflict_witness :
  let WIDGET :=
    {| meta_app_label := "B"; meta_object_name := "WIDGET";
       meta_auto_created := false; deferred := false; meta_swapped := false |} in
  (register_models "B" [Demo.Gadget; Demo.Widget] init).1 = Ok tt
  /\ (register_models "B" [Demo.Widget; Demo.Gadget; WIDGET] init).1 <> Ok tt.
Proof.
  intros WIDGET. split.
  - apply (register_models_all_or_conflict "B" [Demo.Gadget; Demo.Widget] init).
    split; [apply (bool_decide_unpack (NoDup _)); vm_compute; exact I|].
    repeat constructor.
  - intros Hok.
    apply (register_models_all_or_conflict "B"
             [Demo.Widget; Demo.Gadget; WIDGET] init) in Hok as [Hnd _].
    apply NoDup_cons in Hnd as [Hnew _]. apply Hnew.
    apply list_elem_of_further, list_elem_of_here.
Defined.

(** ** The deprecated methods *)

Section DeprecatedFacts.

Variable create : string -> string + AppConfig.t.
Variable models_module : AppConfig.t -> option string.

Lemma load_app_cases app_name self :
  load_app create models_module app_name self =
  match create app_name with
  | inl message => (Raise (Fault message), self)
  | inr app_config =>
      match load_models app_config self with
      | (Raise e, self1) => (Raise e, self1)
      | (Ok _, self1) =>
          (Ok (models_module app_config),
           with_get_models_cache ∅
             (with_app_configs
                (OrderedDict.set (AppConfig.label app_config) app_config
                   (app_configs self1)) self1))
      end
  end.
Proof.
  unfold load_app. destruct (create app_name) as [message|app_config]; [done|].
  unfold load_models, clear_cache. run_monad.
  destruct (all_models_getitem (AppConfig.label app_config) self)
    as [[app_models|e] self0]; [|done].
  by destruct (import_models app_config self0) as [[[]|e] self1].
Qed.

Lemma get_app_cases app_label self :
  get_app models_module app_label self =
  if ready self then
    match OrderedDict.get app_label (app_configs self) with
    | None =>
        (Raised (ImproperlyConfigured (LookupError_no_installed_app app_label)),
         self)
    | Some app_config =>
        match models_module app_config with
        | None =>
            (Raised (ImproperlyConfigured_no_models_module app_label), self)
        | Some module => (Returned module, self)
        end
    end
  else (Raised (Propagated RuntimeError_not_ready), self).
Proof.
  unfold get_app, get_app_config, check_ready. run_monad.
  destruct (ready self); simpl; [|done].
  by destruct (OrderedDict.get app_label (app_configs self)).
Qed.

End DeprecatedFacts.

(** X16: [load_app] does not look at the flag. When it returns, the
    application is installed under its label (in the place of an
    application that had this label, else at the end), the other labels
    keep their applications, the cache is empty, no model is lost, and the
    result is the models module of the application. On a registry that is
    not ready, every later [populate] is then refused as reentrant. *)
Theorem load_app_installs create models_module app_name app_config result self self' :
  create app_name = inr app_config ->
  load_app create models_module app_name self = (Ok result, self') ->
  result = models_module app_config
  /\ OrderedDict.get (AppConfig.label app_config) (app_configs self')
     = Some app_config
  /\ (forall app_label,
        app_label <> AppConfig.label app_config ->
        OrderedDict.get app_label (app_configs self')
        = OrderedDict.get app_label (app_configs self))
  /\ get_models_cache self' = ∅
  /\ ready self' = ready self
  /\ stored_app_configs self' = stored_app_configs self
  /\ store_grows self self'
  /\ (ready self = false ->
      forall installed_apps,
        populate create installed_apps self'
        = (Raise RuntimeError_not_reentrant, self')).
Proof.
  intros Hcreate. rewrite load_app_cases, Hcreate.
  pose proof (load_models_imports app_config self)
    as ((Hcfg & Hstack & Hready) & Hgrows & _).
  destruct (load_models app_config self) as [[[]|e] self1]; [|done].
  simpl in *. intros [= <- <-]. simpl.
  split; [done|]. split; [apply od_get_set_eq|].
  split; [by intros app_label Hne; rewrite od_get_set_ne, Hcfg|].
  do 4 (split; [done|]).
  intros Hnot installed_apps. apply populate_not_reentrant.
  - simpl. congruence.
  - simpl. intros Hempty.
    pose proof (od_set_truthy (AppConfig.label app_config) app_config
                  (app_configs self1)) as Htruthy.
    by rewrite Hempty in Htruthy.
Qed.

Lemma load_app_installs_witness :
  let self' := (load_app Demo.create Demo2.models_module "pkg.B" init).2 in
  load_app Demo.create Demo2.models_module "pkg.B" init
  = (Ok (Some "pkg.B.models"), self')
  /\ OrderedDict.get "B" (app_configs self') = Some Demo.B
  /\ populate Demo.create (Some [Path "pkg.A"; Path "pkg.B"]) self'
     = (Raise RuntimeError_not_reentrant, self').
Proof.
  intros self'.
  destruct (load_app_installs Demo.create Demo2.models_module "pkg.B" Demo.B
              (Some "pkg.B.models") init self' eq_refl)
    as (_ & Hget & _ & _ & _ & _ & _ & Hpop); [vm_compute; reflexivity|].
  split; [vm_compute; reflexivity|]. split; [exact Hget|].
  by apply Hpop.
Defined.

(** X17: when [load_app] raises, the application is not installed: the
    applications, the stack and the flag are as they were and no model is
    lost. What it raises is the fault of [AppConfig.create] or of the
    import of the models, or the conflict of two models. *)
Theorem load_app_failure_installs_nothing
    create models_module app_name e self self' :
  load_app create models_module app_name self = (Raise e, self') ->
  app_configs self' = app_configs self
  /\ stored_app_configs self' = stored_app_configs self
  /\ ready self' = ready self
  /\ store_grows self self'
  /\ from_loading e.
Proof.
  rewrite load_app_cases.
  destruct (create app_name) as [message|app_config].
  - intros [= <- <-]. do 3 (split; [done|]). split; [apply store_grows_refl|done].
  - pose proof (load_models_imports app_config self)
      as ((Hcfg & Hstack & Hready) & Hgrows & _).
    destruct (load_models app_config self) as [[[]|e1] self1] eqn:Hload; [done|].
    intros [= <- <-]. simpl in *. do 4 (split; [done|]).
    by eapply load_models_raises.
Qed.

Lemma load_app_failure_installs_nothing_witness :
  let self := (register_model "B" Demo.Widget demo_A).2 in
  let self' := (load_app Demo.create Demo2.models_module "pkg.B" self).2 in
  load_app Demo.create Demo2.models_module "pkg.B" self
  = (Raise (RuntimeError_conflicting "widget" "B" Demo.Widget Demo.Widget), self')
  /\ app_configs self' = [("A", Demo.A)].
Proof.
  intros self self'.
  destruct (load_app_failure_installs_nothing Demo.create Demo2.models_module
              "pkg.B" (RuntimeError_conflicting "widget" "B" Demo.Widget Demo.Widget)
              self self') as (Hcfg & _); [vm_compute; reflexivity|].
  split; [vm_compute; reflexivity|]. rewrite Hcfg. reflexivity.
Defined.

(** X18: [get_app] never changes the registry and never lets a
    [LookupError] out. It raises the error of a registry that is not ready;
    [ImproperlyConfigured] with the arguments of the [LookupError] when no
    application is installed under the label; [ImproperlyConfigured] when
    the application has no models module; and returns the module
    otherwise. *)
Theorem get_app_translates_errors models_module app_label self :
  (get_app models_module app_label self).2 = self
  /\ match (get_app models_module app_label self).1 with
     | Returned module =>
         ready self = true
         /\ exists app_config,
              OrderedDict.get app_label (app_configs self) = Some app_config
              /\ models_module app_config = Some module
     | Raised (Propagated e) =>
         e = RuntimeError_not_ready /\ ready self = false
     | Raised (ImproperlyConfigured e) =>
         e = LookupError_no_installed_app app_label
         /\ ready self = true
         /\ OrderedDict.get app_label (app_configs self) = None
     | Raised (ImproperlyConfigured_no_models_module named) =>
         named = app_label
         /\ ready self = true
         /\ exists app_config,
              OrderedDict.get app_label (app_configs self) = Some app_config
              /\ models_module app_config = None
     end.
Proof.
  rewrite get_app_cases.
  destruct (ready self); [|done].
  destruct (OrderedDict.get app_label (app_configs self)) as [app_config|];
    [|done].
  destruct (models_module app_config) eqn:Hmodule; simpl; eauto 6.
Qed.

(** X19: on a ready, well-formed registry, [get_apps] lists the models
    modules of the installed applications that have one, in the order of
    the applications, and a module is in the list exactly when [get_app]
    returns it for some label. *)
Theorem get_apps_lists_get_app models_module self :
  ready self = true ->
  registry_wf self ->
  get_apps models_module self
  = (Ok (omap models_module (OrderedDict.values (app_configs self))), self)
  /\ forall module,
       module ∈ omap models_module (OrderedDict.values (app_configs self)) <->
       exists app_label,
         get_app models_module app_label self = (Returned module, self).
Proof.
  intros Hready [Hwf _]. split.
  - unfold get_apps, get_app_configs, check_ready. run_monad. by rewrite Hready.
  - intros module. rewrite list_elem_of_omap. split.
    + intros (app_config & Hin & Hmodule). exists (AppConfig.label app_config).
      rewrite get_app_cases, Hready.
      rewrite (proj2 (dict_wf_get _ _ app_config Hwf) (conj Hin eq_refl)).
      by rewrite Hmodule.
    + intros (app_label & Hcall). rewrite get_app_cases, Hready in Hcall.
      destruct (OrderedDict.get app_label (app_configs self)) as [app_config|]
        eqn:Hget; [|done].
      destruct (models_module app_config) as [found|] eqn:Hmodule; [|done].
      injection Hcall as ->. exists app_config.
      split; [by eapply od_get_values|done].
Qed.

Lemma demo_shop_wf :
  registry_wf
    (populate Demo.create (Some [Path "pkg.A"; Instance Demo.Shop]) init).2.
Proof.
  apply (after_wf Demo.create
           [Populate (Some [Path "pkg.A"; Instance Demo.Shop])] init), init_wf.
Qed.

Lemma get_apps_lists_get_app_witness :
  let self :=
    (populate Demo.create (Some [Path "pkg.A"; Instance Demo.Shop]) init).2 in
  get_apps Demo2.models_module self = (Ok ["pkg.A.models"], self)
  /\ get_app Demo2.models_module "shop" self
     = (Raised (ImproperlyConfigured_no_models_module "shop"), self)
  /\ exists app_label,
       get_app Demo2.models_module app_label self
       = (Returned "pkg.A.models", self).
Proof.
  intros self.
  destruct (get_apps_lists_get_app Demo2.models_module self eq_refl demo_shop_wf)
    as [Hlist Hiff].
  split; [rewrite Hlist; reflexivity|]. split; [vm_compute; reflexivity|].
  apply Hiff. apply list_elem_of_here.
Defined.

(** ** The package of a module *)

Lemma string_append_assoc (s1 s2 s3 : string) :
  String.append (String.append s1 s2) s3 = String.append s1 (String.append s2 s3).
Proof.
  induction s1 as [|c s1 IH]; [done|].
  change (String c (String.append (String.append s1 s2) s3)
          = String c (String.append s1 (String.append s2 s3))).
  by rewrite IH.
Qed.

Lemma join_cons_nonempty sep x l :
  l <> [] -> join sep (x :: l) = String.append x (String.append sep (join sep l)).
Proof. by destruct l. Qed.

Lemma join_snoc sep l x :
  l <> [] ->
  join sep (l ++ [x])%list = String.append (join sep l) (String.append sep x).
Proof.
  induction l as [|y l IH]; [done|]. intros _.
  destruct l as [|z l].
  - reflexivity.
  - change ((y :: z :: l) ++ [x])%list with (y :: ((z :: l) ++ [x]))%list.
    rewrite join_cons_nonempty by (simpl; discriminate).
    rewrite IH by done.
    rewrite (join_cons_nonempty sep y (z :: l)) by done.
    by rewrite !string_append_assoc.
Qed.

Lemma join_split s : join "." (PyStr.split "." s) = s.
Proof.
  induction s as [|c s IH]; [done|]. simpl PyStr.split.
  destruct (Ascii.eqb_spec c ".") as [->|Hne].
  - rewrite join_cons_nonempty by apply split_nonempty. by rewrite IH.
  - pose proof (split_nonempty s) as Hnonempty.
    destruct (PyStr.split "." s) as [|h t]; [done|].
    destruct t as [|h' t]; simpl in *; by rewrite <- IH.
Qed.

(** X20: [_get_app_package] cuts a module name at its last dot. A name
    with a dot is its package, a dot, and its last part, the part that
    [rpartition] gives; a name without a dot has the empty package. And
    joining with dots what [split] has cut gives the name back. *)
Theorem get_app_package_round_trip app :
  join "." (PyStr.split "." app) = app
  /\ (has_dot app = true ->
      String.append (_get_app_package app)
        (String.append "." (PyStr.rpartition_tail "." app)) = app)
  /\ (has_dot app = false -> _get_app_package app = EmptyString).
Proof.
  split; [apply join_split|]. split.
  - intros Hdot. unfold _get_app_package, PyStr.rpartition_tail.
    pose proof (split_has_dot app Hdot) as Hlen.
    pose proof (join_split app) as Hjoin.
    rewrite (app_removelast_last EmptyString (split_nonempty app)) in Hjoin.
    rewrite join_snoc in Hjoin; [done|].
    destruct (PyStr.split "." app) as [|x [|y l]]; simpl in *; [lia|lia|done].
  - intros Hdot. unfold _get_app_package. by rewrite split_no_dot.
Qed.

Lemma get_app_package_round_trip_witness :
  _get_app_package "django.contrib.admin.models" = "django.contrib.admin"
  /\ String.append (_get_app_package "django.contrib.admin.models")
       (String.append "." (PyStr.rpartition_tail "." "django.contrib.admin.models"))
     = "django.contrib.admin.models"
  /\ _get_app_package "models" = EmptyString.
Proof.
  split; [reflexivity|]. split.
  - by apply (get_app_package_round_trip "django.contrib.admin.models").
  - by apply (get_app_package_round_trip "models").
Defined.
